(** * password_validator.py: the password policy validator

    A shallow embedding of [src/password_validator.py] and the properties of
    its rule engine.  A Python [str] is a sequence of Unicode code points; the
    regular expressions the script hands to the [re] module are embedded as
    syntax trees and run by a backtracking matcher that returns, in priority
    order, every length the pattern can consume at a position; a second
    matcher stops at the first match and counts its steps. *)

From Stdlib Require Import Ascii String.
From Stdlib Require Import List Bool Arith NArith ZArith Lia.
From Stdlib Require Import Sorted Permutation.
Import ListNotations.

Set Implicit Arguments.

(** ** Characters and strings *)

(** A character is its Unicode code point. *)
Definition char := N.

(** A Python [str]. *)
Definition str := list char.

Definition ord (a : ascii) : char := N_of_ascii a.

(** The [str] written by an ASCII literal. *)
Definition lit (s : string) : str := map ord (list_ascii_of_string s).

Definition NEWLINE : char := 10%N.

(** ** The Unicode tables the script depends on

    [\d] in a [str] pattern matches every character of category Nd, and
    [str.strip()] removes every character for which [str.isspace] holds.
    Both tables belong to the interpreter's Unicode database, not to the
    script; they are taken as parameters, with their ASCII part fixed. *)

Definition in_range (lo hi c : char) : bool := (N.leb lo c) && (N.leb c hi).

Definition ascii_digit (c : char) : bool := in_range (ord "0") (ord "9") c.

Definition ascii_space (c : char) : bool :=
  in_range 9%N 13%N c || in_range 28%N 32%N c.

Class UnicodeData : Type := {
  isdecimal : char -> bool;
  isspace : char -> bool;
  isdecimal_ascii : forall c, (c < 128)%N -> isdecimal c = ascii_digit c;
  isspace_ascii : forall c, (c < 128)%N -> isspace c = ascii_space c
}.

(** ** Regular expressions, as [sre_parse] reads them *)

Inductive cset_item : Type :=
| RANGE (lo hi : char)        (* a-b inside [...] *)
| LITERAL (c : char)          (* a single character inside [...] *)
| CATEGORY_DIGIT.             (* \d *)

Inductive regex : Type :=
| IN (items : list cset_item)                        (* [...] and \d *)
| ANY                                                (* . *)
| AT_BEGINNING                                       (* ^ *)
| AT_END                                             (* $ *)
| CAT (r1 r2 : regex)                                (* r1 r2 *)
| MAX_REPEAT (lo : nat) (hi : option nat) (r : regex) (* r{lo,hi}, greedy *)
| ASSERT (r : regex)                                 (* (?=r) *)
| SUBPATTERN (r : regex).                            (* (r) and (?:r) *)

Declare Scope regex_scope.
Delimit Scope regex_scope with re.
Bind Scope regex_scope with regex.
Infix "@" := CAT (at level 60, right associativity) : regex_scope.

(** [r*] *)
Definition STAR (r : regex) : regex := MAX_REPEAT 0 None r.

Section Engine.

Context {U : UnicodeData}.

Definition item_matches (it : cset_item) (c : char) : bool :=
  match it with
  | RANGE lo hi => in_range lo hi c
  | LITERAL k => N.eqb c k
  | CATEGORY_DIGIT => isdecimal c
  end.

Definition in_cset (items : list cset_item) (c : char) : bool :=
  existsb (fun it => item_matches it c) items.

(** A pattern of width one: consumes the next character when [p] accepts it. *)
Definition one_char (p : char -> bool) (rest : str) : list nat :=
  match rest with
  | c :: _ => if p c then [1] else []
  | [] => []
  end.

Definition not_newline (c : char) : bool := negb (N.eqb c NEWLINE).

(** Whether a repetition with upper bound [hi] may start one more round. *)
Definition room (hi : option nat) : bool :=
  match hi with
  | Some 0 => false
  | _ => true
  end.

(** The greedy repetition loop.  [body pos rest] lists the lengths one round
    can consume at offset [pos], where [rest] is the unread input.  While
    [lo] rounds are still owed a round is mandatory; afterwards another round
    is tried first and the loop exit last, and a round that consumed nothing
    leaves the loop (zero-width protection).  [fuel] bounds the number of
    nested rounds. *)
Fixpoint repeat_loop (body : nat -> str -> list nat) (fuel lo : nat)
    (hi : option nat) (pos : nat) (rest : str) : list nat :=
  match fuel with
  | 0 => []
  | S fuel' =>
      (if room hi then
         flat_map
           (fun n =>
              if (lo =? 0) && (n =? 0) then [0]
              else map (Nat.add n)
                     (repeat_loop body fuel' (pred lo) (option_map pred hi)
                        (pos + n) (skipn n rest)))
           (body pos rest)
       else [])
      ++ (if lo =? 0 then [0] else [])
  end.

(** [run fuel r pos rest]: the lengths [r] can consume at offset [pos] of the
    subject, [rest] being the subject from [pos] on, most preferred first. *)
Fixpoint run (fuel : nat) (r : regex) (pos : nat) (rest : str) : list nat :=
  match r with
  | IN items => one_char (in_cset items) rest
  | ANY => one_char not_newline rest
  | AT_BEGINNING => if pos =? 0 then [0] else []
  | AT_END =>
      match rest with
      | [] => [0]
      | [c] => if N.eqb c NEWLINE then [0] else []
      | _ => []
      end
  | CAT r1 r2 =>
      flat_map
        (fun n => map (Nat.add n) (run fuel r2 (pos + n) (skipn n rest)))
        (run fuel r1 pos rest)
  | MAX_REPEAT lo hi r1 => repeat_loop (run fuel r1) fuel lo hi pos rest
  | ASSERT r1 =>
      match run fuel r1 pos rest with
      | [] => []
      | _ :: _ => [0]
      end
  | SUBPATTERN r1 => run fuel r1 pos rest
  end.

End Engine.

(** ** Python values, exceptions and the [re] entry points *)

Inductive pyobj : Type :=
| PyStr (s : str)
| PyBytes (b : list N)
| PyInt (z : Z)
| PyNone.

Inductive exn : Type :=
| TypeError
| ValueError
| IndexError             (* arg.split("=", 1)[1] *)
| OSError                (* open(path, ...): FileNotFoundError and the like *)
| UnicodeDecodeError     (* reading a file that is not UTF-8 *)
| UnicodeEncodeError.    (* print, when stdout cannot encode the text *)

Inductive result (A : Type) : Type :=
| Ok (a : A)
| Raise (e : exn).

Arguments Ok {A} a.
Arguments Raise {A} e.

Definition bind {A B : Type} (m : result A) (k : A -> result B) : result B :=
  match m with
  | Ok a => k a
  | Raise e => Raise e
  end.

Notation "x <- m ;; k" := (bind m (fun x => k))
  (at level 61, m at next level, right associativity).

(** [isinstance(x, str)] *)
Definition isinstance_str (x : pyobj) : bool :=
  match x with
  | PyStr _ => true
  | _ => false
  end.

(** [len(x)] *)
Definition len (x : pyobj) : result nat :=
  match x with
  | PyStr s => Ok (length s)
  | PyBytes b => Ok (length b)
  | _ => Raise TypeError
  end.

(** The subject of a [str] pattern must be a [str]. *)
Definition subject (x : pyobj) : result str :=
  match x with
  | PyStr s => Ok s
  | _ => Raise TypeError
  end.

(** A match object: where the match starts and where it ends. *)
Definition match_obj := (nat * nat)%type.

(** Truth value of what [re.fullmatch] and [re.search] return. *)
Definition truthy (m : option match_obj) : bool :=
  match m with
  | Some _ => true
  | None => false
  end.

Section Re.

Context {U : UnicodeData}.

(** [fullmatch]: a match at offset 0 that ends at the end of the subject. *)
Definition fullmatch_str (fuel : nat) (r : regex) (s : str) : option match_obj :=
  match find (Nat.eqb (length s)) (run fuel r 0 s) with
  | Some n => Some (0, n)
  | None => None
  end.

(** [search]: the first offset at which the pattern matches. *)
Fixpoint search_from (fuel : nat) (r : regex) (pos : nat) (rest : str)
  : option match_obj :=
  match run fuel r pos rest with
  | n :: _ => Some (pos, pos + n)
  | [] =>
      match rest with
      | [] => None
      | _ :: tl => search_from fuel r (S pos) tl
      end
  end.

(** [findall] for a pattern without groups: the text of the successive
    non-overlapping matches.  After an empty match the next one must advance
    ([adv]); [k] bounds the number of search steps. *)
Fixpoint scan (k fuel : nat) (r : regex) (adv : bool) (pos : nat) (rest : str)
  : list str :=
  match k with
  | 0 => []
  | S k' =>
      match filter (fun n => negb adv || (0 <? n)) (run fuel r pos rest) with
      | n :: _ =>
          firstn n rest ::
            (if n =? 0 then scan k' fuel r true pos rest
             else scan k' fuel r false (pos + n) (skipn n rest))
      | [] =>
          match rest with
          | [] => []
          | _ :: tl => scan k' fuel r false (S pos) tl
          end
      end
  end.

Definition re_fullmatch (fuel : nat) (r : regex) (x : pyobj)
  : result (option match_obj) :=
  s <- subject x ;; Ok (fullmatch_str fuel r s).

Definition re_search (fuel : nat) (r : regex) (x : pyobj)
  : result (option match_obj) :=
  s <- subject x ;; Ok (search_from fuel r 0 s).

Definition re_findall (fuel : nat) (r : regex) (x : pyobj) : result (list str) :=
  s <- subject x ;; Ok (scan fuel fuel r false 0 s).

End Re.

(** ** The script *)

(** [[A-Za-z0-9#$%!@+=]] *)
Definition ALLOWED : list cset_item :=
  [ RANGE (ord "A") (ord "Z"); RANGE (ord "a") (ord "z");
    RANGE (ord "0") (ord "9");
    LITERAL (ord "#"); LITERAL (ord "$"); LITERAL (ord "%"); LITERAL (ord "!");
    LITERAL (ord "@"); LITERAL (ord "+"); LITERAL (ord "=") ].

(** [[A-Z]] *)
Definition UPPER : list cset_item := [ RANGE (ord "A") (ord "Z") ].

(** [\d] *)
Definition DIGIT : list cset_item := [ CATEGORY_DIGIT ].

(** [[#$%!@+=]] *)
Definition SPECIAL : list cset_item :=
  [ LITERAL (ord "#"); LITERAL (ord "$"); LITERAL (ord "%"); LITERAL (ord "!");
    LITERAL (ord "@"); LITERAL (ord "+"); LITERAL (ord "=") ].

(** [PASSWORD_REGEX_TEXT]:
    [^(?=([A-Za-z0-9#$%!@+=]{10,})$)(?=(?:.*[A-Z]){3})(?=(?:.*\d){3})(?=.*[#$%!@+=]).*$] *)
Definition PASSWORD_REGEX : regex :=
  (AT_BEGINNING
   @ ASSERT (SUBPATTERN (MAX_REPEAT 10 None (IN ALLOWED)) @ AT_END)
   @ ASSERT (MAX_REPEAT 3 (Some 3) (SUBPATTERN (STAR ANY @ IN UPPER)))
   @ ASSERT (MAX_REPEAT 3 (Some 3) (SUBPATTERN (STAR ANY @ IN DIGIT)))
   @ ASSERT (STAR ANY @ IN SPECIAL)
   @ STAR ANY @ AT_END)%re.

(** The messages, as UTF-8 text. *)
Definition MSG_NOT_STR : string := "Cadena inválida".
Definition MSG_SHORT_OR_CHARSET : string :=
  "Largo < 10 o caracteres fuera del conjunto permitido".
Definition MSG_CHARSET : string := "Caracteres fuera del conjunto permitido".
Definition MSG_UPPER : string := "Faltan mayúsculas (≥3)".
Definition MSG_DIGITS : string := "Faltan dígitos (≥3)".
Definition MSG_SPECIAL : string := "Falta carácter especial [#$%!@+=]".
Definition MSG_OK : string := "OK".
Definition MSG_POLICY : string := "No cumple la política".

Section Script.

Context {U : UnicodeData}.

Definition validate_password_fuel (fuel : nat) (pw : pyobj)
  : result (bool * string) :=
  if negb (isinstance_str pw) then Ok (false, MSG_NOT_STR) else
  m <- re_fullmatch fuel (MAX_REPEAT 10 None (IN ALLOWED)) pw ;;
  if negb (truthy m) then
    n <- len pw ;;
    if n <? 10 then Ok (false, MSG_SHORT_OR_CHARSET)
    else Ok (false, MSG_CHARSET)
  else
  ups <- re_findall fuel (IN UPPER) pw ;;
  if length ups <? 3 then Ok (false, MSG_UPPER) else
  ds <- re_findall fuel (IN DIGIT) pw ;;
  if length ds <? 3 then Ok (false, MSG_DIGITS) else
  sp <- re_search fuel (IN SPECIAL) pw ;;
  if negb (truthy sp) then Ok (false, MSG_SPECIAL) else
  g <- re_fullmatch fuel PASSWORD_REGEX pw ;;
  let ok := truthy g in
  if ok then Ok (true, MSG_OK) else Ok (false, MSG_POLICY).

(** The matcher's loops never need more rounds than this for a subject of
    the given length: every round reads a character or pays off one of the
    at most ten owed repetitions, and a search step either advances or
    follows an empty match. *)
Definition budget (pw : pyobj) : nat :=
  match pw with
  | PyStr s => 2 * length s + 12
  | _ => 0
  end.

Definition validate_password (pw : pyobj) : result (bool * string) :=
  validate_password_fuel (budget pw) pw.

End Script.

(** ** The matcher, step by step

    The same patterns run by a backtracking matcher that stops at the first
    match and counts its work: one step for every test of a character or of
    a position.  A computation yields its result and the steps it took, or
    nothing when a loop was cut at its limit of rounds before finishing. *)

Definition counted (A : Type) : Type := option (A * nat).

Definition done {A : Type} (a : A) : counted A := Some (a, 0).

(** A loop cut at its limit. *)
Definition cut {A : Type} : counted A := None.

(** One step, then [m]. *)
Definition step {A : Type} (m : counted A) : counted A :=
  match m with
  | Some (a, n) => Some (a, S n)
  | None => None
  end.

Definition andthen {A B : Type} (m : counted A) (k : A -> counted B)
  : counted B :=
  match m with
  | Some (a, n) =>
      match k a with
      | Some (b, n') => Some (b, n + n')
      | None => None
      end
  | None => None
  end.

(** What is left to match after a pattern: given where the pattern ended
    and the unread input, the end of the whole match, if there is one. *)
Definition cont : Type := nat -> str -> counted (option nat).

(** The continuation that ends a lookahead. *)
Definition found_here : cont := fun pos' _ => done (Some pos').

(** The continuation of [fullmatch]. *)
Definition at_subject_end : cont :=
  fun pos' rest' =>
    step (match rest' with
          | [] => done (Some pos')
          | _ :: _ => done None
          end).

Section Steps.

Context {U : UnicodeData}.

(** A pattern of width one in front of [k]. *)
Definition try_char (p : char -> bool) (pos : nat) (rest : str) (k : cont)
  : counted (option nat) :=
  step (match rest with
        | c :: tl => if p c then k (S pos) tl else done None
        | [] => done None
        end).

(** The greedy repetition in front of [k]: while rounds are owed a round is
    mandatory; afterwards another round is tried first, then [k] from
    here; a round that read nothing goes on with [k].  [limit] bounds the
    nested rounds; reaching it cuts the computation. *)
Fixpoint rounds (body : nat -> str -> cont -> counted (option nat))
    (limit lo : nat) (hi : option nat) (pos : nat) (rest : str) (k : cont)
  : counted (option nat) :=
  match limit with
  | 0 => cut
  | S limit' =>
      if room hi then
        match lo with
        | S lo' =>
            body pos rest
              (fun pos' rest' =>
                 rounds body limit' lo' (option_map pred hi) pos' rest' k)
        | 0 =>
            andthen
              (body pos rest
                 (fun pos' rest' =>
                    if pos' =? pos then k pos' rest'
                    else rounds body limit' 0 (option_map pred hi)
                           pos' rest' k))
              (fun found =>
                 match found with
                 | Some e => done (Some e)
                 | None => k pos rest
                 end)
        end
      else if lo =? 0 then k pos rest else done None
  end.

(** [attempt r pos rest k]: match [r] at offset [pos], [rest] being the
    unread input, and then [k]; alternatives are tried in the order of
    preference until the whole succeeds. *)
Fixpoint attempt (r : regex) (pos : nat) (rest : str) (k : cont)
  : counted (option nat) :=
  match r with
  | IN items => try_char (in_cset items) pos rest k
  | ANY => try_char not_newline pos rest k
  | AT_BEGINNING => step (if pos =? 0 then k pos rest else done None)
  | AT_END =>
      step (match rest with
            | [] => k pos rest
            | [c] => if N.eqb c NEWLINE then k pos rest else done None
            | _ => done None
            end)
  | CAT r1 r2 =>
      attempt r1 pos rest (fun pos' rest' => attempt r2 pos' rest' k)
  | MAX_REPEAT lo hi r1 =>
      rounds (attempt r1) (S (lo + length rest)) lo hi pos rest k
  | ASSERT r1 =>
      andthen (attempt r1 pos rest (fun pos' _ => done (Some pos')))
        (fun found =>
           match found with
           | Some _ => k pos rest
           | None => done None
           end)
  | SUBPATTERN r1 => attempt r1 pos rest k
  end.

(** [fullmatch]: the match must end where the subject ends. *)
Definition fullmatch_steps (r : regex) (s : str) : counted (option match_obj) :=
  andthen
    (attempt r 0 s
       (fun pos' rest' =>
          step (match rest' with
                | [] => done (Some pos')
                | _ :: _ => done None
                end)))
    (fun found =>
       match found with
       | Some e => done (Some (0, e))
       | None => done None
       end).

(** [search]: offset after offset. *)
Fixpoint search_steps (r : regex) (pos : nat) (rest : str)
  : counted (option match_obj) :=
  andthen (attempt r pos rest (fun pos' _ => done (Some pos')))
    (fun found =>
       match found with
       | Some e => done (Some (pos, e))
       | None =>
           match rest with
           | [] => done None
           | _ :: tl => search_steps r (S pos) tl
           end
       end).

(** [findall] for a pattern without groups; [k] bounds the search steps,
    and reaching it cuts the computation. *)
Fixpoint scan_steps (k : nat) (r : regex) (adv : bool) (pos : nat) (rest : str)
  : counted (list str) :=
  match k with
  | 0 => cut
  | S k' =>
      andthen
        (attempt r pos rest
           (fun pos' _ =>
              if adv && (pos' =? pos) then done None else done (Some pos')))
        (fun found =>
           match found with
           | Some e =>
               let n := e - pos in
               andthen
                 (if n =? 0 then scan_steps k' r true pos rest
                  else scan_steps k' r false e (skipn n rest))
                 (fun l => done (firstn n rest :: l))
           | None =>
               match rest with
               | [] => done []
               | _ :: tl => scan_steps k' r false (S pos) tl
               end
           end)
  end.

(** The entry points on Python values. *)
Definition on_subject {A : Type} (x : pyobj) (f : str -> counted A)
  : counted (result A) :=
  match subject x with
  | Ok s => andthen (f s) (fun a => done (Ok a))
  | Raise e => done (Raise e)
  end.

Definition re_fullmatch_steps (r : regex) (x : pyobj)
  : counted (result (option match_obj)) :=
  on_subject x (fullmatch_steps r).

Definition re_search_steps (r : regex) (x : pyobj)
  : counted (result (option match_obj)) :=
  on_subject x (search_steps r 0).

Definition re_findall_steps (r : regex) (x : pyobj) : counted (result (list str)) :=
  on_subject x (fun s => scan_steps (2 * length s + 2) r false 0 s).

(** Sequencing of calls that may raise. *)
Definition next {A B : Type} (m : counted (result A))
    (k : A -> counted (result B)) : counted (result B) :=
  andthen m (fun r =>
               match r with
               | Ok a => k a
               | Raise e => done (Raise e)
               end).

Notation "x <~ m ;; k" := (next m (fun x => k))
  (at level 61, m at next level, right associativity).

(** [validate_password] with the work of its calls to the matcher
    counted; the rest of the function is straight-line code. *)
Definition validate_password_steps (pw : pyobj)
  : counted (result (bool * string)) :=
  if negb (isinstance_str pw) then done (Ok (false, MSG_NOT_STR)) else
  m <~ re_fullmatch_steps (MAX_REPEAT 10 None (IN ALLOWED)) pw ;;
  if negb (truthy m) then
    n <~ done (len pw) ;;
    if n <? 10 then done (Ok (false, MSG_SHORT_OR_CHARSET))
    else done (Ok (false, MSG_CHARSET))
  else
  ups <~ re_findall_steps (IN UPPER) pw ;;
  if length ups <? 3 then done (Ok (false, MSG_UPPER)) else
  ds <~ re_findall_steps (IN DIGIT) pw ;;
  if length ds <? 3 then done (Ok (false, MSG_DIGITS)) else
  sp <~ re_search_steps (IN SPECIAL) pw ;;
  if negb (truthy sp) then done (Ok (false, MSG_SPECIAL)) else
  g <~ re_fullmatch_steps PASSWORD_REGEX pw ;;
  let ok := truthy g in
  if ok then done (Ok (true, MSG_OK)) else done (Ok (false, MSG_POLICY)).

End Steps.

(** A bound on the steps of [(?:.*[...]){k}] on [n] characters: every
    round walks to the end of the input and back, and a round has to be
    redone for each of the at most [k] places the later rounds reject. *)
Fixpoint rounds_bound (k n : nat) : nat :=
  match k with
  | 0 => 0
  | S j => 2 * n + 2 + S j * rounds_bound j n
  end.

(** ** The loader: [parse_line] and [load_and_validate] *)

(** What [open(path, "r", encoding="utf-8")] and the loop over the file
    give.  [open] raises ([OSError] for a file that is not there or may not
    be read, [ValueError] for a path that holds a null character), or it
    returns the file; the file is decoded as the loop reads it, so the loop
    gets the lines of the file when all of it is UTF-8, and otherwise some
    of its lines and then [UnicodeDecodeError] from the read that meets the
    other bytes. *)
Inductive file_read : Type :=
| CannotOpen (e : exn)
| Lines (lines : list str)
| CannotDecode (lines : list str).

Section Loader.

Context {U : UnicodeData}.

(** [s.lstrip()], [s.rstrip()] and [s.strip()] *)
Fixpoint lstrip (s : str) : str :=
  match s with
  | c :: tl => if isspace c then lstrip tl else s
  | [] => []
  end.

Definition rstrip (s : str) : str := rev (lstrip (rev s)).

Definition strip (s : str) : str := rstrip (lstrip s).

(** [s.startswith(prefix)] *)
Fixpoint startswith (s prefix : str) {struct prefix} : bool :=
  match prefix, s with
  | [], _ => true
  | p :: ps, c :: cs => N.eqb c p && startswith cs ps
  | _ :: _, [] => false
  end.

(** [sub in s] *)
Fixpoint str_in (sub s : str) : bool :=
  startswith s sub ||
  match s with
  | [] => false
  | _ :: tl => str_in sub tl
  end.

(** [s.split(sep, 1)] for a non-empty [sep]: the text before the first
    occurrence of [sep] and the text after it, or [s] alone. *)
Fixpoint split1 (sep s : str) : list str :=
  if startswith s sep then [[]; skipn (length sep) s]
  else
    match s with
    | [] => [[]]
    | c :: tl =>
        match split1 sep tl with
        | k :: more => (c :: k) :: more
        | [] => []
        end
    end.

Definition parse_line (line : str) : result (option str) :=
  let line := strip line in
  if (match line with [] => true | _ :: _ => false end)
     || startswith line (lit "#")
  then Ok None
  else if str_in (lit ":") line then
    match split1 (lit ":") line with
    | [k; v] => Ok (Some (strip v))
    | _ => Raise ValueError          (* k, v = ... with another arity *)
    end
  else Ok (Some line).

Record Result : Type := mkResult {
  line_no : nat;
  password : str;
  valid : bool;
  message : string
}.

(** The loop of [load_and_validate] over the lines it reads from the
    opened file: [i] is the line counter of [enumerate(f, start=1)], [out]
    the list the loop appends to. *)
Fixpoint load_loop (raws : list str) (i : nat) (out : list Result)
  : result (list Result) :=
  match raws with
  | [] => Ok out
  | raw :: more =>
      pw <- parse_line raw ;;
      match pw with
      | None => load_loop more (S i) out
      | Some pw =>
          v <- validate_password (PyStr pw) ;;
          load_loop more (S i) (out ++ [mkResult i pw (fst v) (snd v)])
      end
  end.

(** [load_and_validate(path)], from what opening and reading the file at
    [path] gives. *)
Definition load_and_validate (f : file_read) : result (list Result) :=
  match f with
  | CannotOpen e => Raise e
  | Lines lines => load_loop lines 1 []
  | CannotDecode lines =>
      match load_loop lines 1 [] with
      | Ok _ => Raise UnicodeDecodeError
      | Raise e => Raise e
      end
  end.

End Loader.

(** ** The vocabulary of the policy

    The policy as the docstring of the script words it: minimum length 10,
    at least 3 uppercase letters [A-Z], at least 3 digits [0-9], at least 1
    special character of [#$%!@+=], and no character outside
    [A-Za-z0-9#$%!@+=].  These definitions do not mention the matcher; the
    theorems compare them with what the code computes. *)

(** Number of characters of [s] accepted by [p]. *)
Definition count (p : char -> bool) (s : str) : nat := length (filter p s).

Definition ascii_upper (c : char) : bool := in_range (ord "A") (ord "Z") c.

Definition ascii_lower (c : char) : bool := in_range (ord "a") (ord "z") c.

(** [SPECIAL_SET] *)
Definition special (c : char) : bool := existsb (N.eqb c) (lit "#$%!@+=").

(** [ALLOWED_SET]: ASCII letters, ASCII digits and the special characters. *)
Definition allowed (c : char) : bool :=
  ascii_upper c || ascii_lower c || ascii_digit c || special c.

(** The charset-and-length check. *)
Definition charset_and_length_ok (s : str) : bool :=
  (10 <=? length s) && forallb allowed s.

(** The rules in their order of priority: the first rule violated gives
    the reason. *)
Definition first_failure (s : str) : bool * string :=
  if negb (charset_and_length_ok s) then
    if length s <? 10 then (false, MSG_SHORT_OR_CHARSET)
    else (false, MSG_CHARSET)
  else if count ascii_upper s <? 3 then (false, MSG_UPPER)
  else if count ascii_digit s <? 3 then (false, MSG_DIGITS)
  else if count special s <? 1 then (false, MSG_SPECIAL)
  else (true, MSG_OK).

(** ** A Unicode database: the tables of Unicode 14, as CPython 3.11 has them *)

Definition in_ranges (tbl : list (char * char)) (c : char) : bool :=
  existsb (fun r => in_range (fst r) (snd r) c) tbl.

(** Category Nd. *)
Definition ND_TABLE : list (char * char) :=
  [ (0x30, 0x39); (0x660, 0x669); (0x6F0, 0x6F9); (0x7C0, 0x7C9);
    (0x966, 0x96F); (0x9E6, 0x9EF); (0xA66, 0xA6F); (0xAE6, 0xAEF);
    (0xB66, 0xB6F); (0xBE6, 0xBEF); (0xC66, 0xC6F); (0xCE6, 0xCEF);
    (0xD66, 0xD6F); (0xDE6, 0xDEF); (0xE50, 0xE59); (0xED0, 0xED9);
    (0xF20, 0xF29); (0x1040, 0x1049); (0x1090, 0x1099); (0x17E0, 0x17E9);
    (0x1810, 0x1819); (0x1946, 0x194F); (0x19D0, 0x19D9); (0x1A80, 0x1A89);
    (0x1A90, 0x1A99); (0x1B50, 0x1B59); (0x1BB0, 0x1BB9); (0x1C40, 0x1C49);
    (0x1C50, 0x1C59); (0xA620, 0xA629); (0xA8D0, 0xA8D9); (0xA900, 0xA909);
    (0xA9D0, 0xA9D9); (0xA9F0, 0xA9F9); (0xAA50, 0xAA59); (0xABF0, 0xABF9);
    (0xFF10, 0xFF19); (0x104A0, 0x104A9); (0x10D30, 0x10D39);
    (0x11066, 0x1106F); (0x110F0, 0x110F9); (0x11136, 0x1113F);
    (0x111D0, 0x111D9); (0x112F0, 0x112F9); (0x11450, 0x11459);
    (0x114D0, 0x114D9); (0x11650, 0x11659); (0x116C0, 0x116C9);
    (0x11730, 0x11739); (0x118E0, 0x118E9); (0x11950, 0x11959);
    (0x11C50, 0x11C59); (0x11D50, 0x11D59); (0x11DA0, 0x11DA9);
    (0x16A60, 0x16A69); (0x16AC0, 0x16AC9); (0x16B50, 0x16B59);
    (0x1D7CE, 0x1D7FF); (0x1E140, 0x1E149); (0x1E2F0, 0x1E2F9);
    (0x1E950, 0x1E959); (0x1FBF0, 0x1FBF9) ]%N.

(** [str.isspace]. *)
Definition SPACE_TABLE : list (char * char) :=
  [ (0x9, 0xD); (0x1C, 0x20); (0x85, 0x85); (0xA0, 0xA0); (0x1680, 0x1680);
    (0x2000, 0x200A); (0x2028, 0x2029); (0x202F, 0x202F); (0x205F, 0x205F);
    (0x3000, 0x3000) ]%N.

(** ** The report: [print_table], [print_summary] and [main] *)

(** The code points of a literal whose bytes are UTF-8; [pending] holds the
    bits read so far of a character and the number of bytes it still
    needs. *)
Fixpoint utf8_decode (pending : option (N * nat)) (bs : list N) : str :=
  match bs with
  | [] => []
  | b :: tl =>
      match pending with
      | Some (acc, S k) =>
          let acc' := (acc * 64 + b mod 64)%N in
          match k with
          | 0 => acc' :: utf8_decode None tl
          | S _ => utf8_decode (Some (acc', k)) tl
          end
      | _ =>
          if (b <? 0x80)%N then b :: utf8_decode None tl
          else if (b <? 0xE0)%N then utf8_decode (Some ((b mod 32)%N, 1)) tl
          else if (b <? 0xF0)%N then utf8_decode (Some ((b mod 16)%N, 2)) tl
          else utf8_decode (Some ((b mod 8)%N, 3)) tl
      end
  end.

(** The [str] written by a literal of the script. *)
Definition text (s : string) : str :=
  utf8_decode None (map ord (list_ascii_of_string s)).

(** What [print(s)] writes when stdout can encode [s]: the text and a
    newline. *)
Definition print (s : str) : str := s ++ [NEWLINE].

(** [f"{s:<w}"], [f"{s:>w}"] and [f"{s:^w}"] *)
Definition format_left (w : nat) (s : str) : str :=
  s ++ repeat (ord " ") (w - length s).

Definition format_right (w : nat) (s : str) : str :=
  repeat (ord " ") (w - length s) ++ s.

Definition format_center (w : nat) (s : str) : str :=
  let pad := w - length s in
  repeat (ord " ") (pad / 2) ++ s ++ repeat (ord " ") (pad - pad / 2).

(** The decimal digits of [n], most significant first, in front of [acc]. *)
Fixpoint digits (fuel n : nat) (acc : str) : str :=
  match fuel with
  | 0 => acc
  | S fuel' =>
      let acc' := (ord "0" + N.of_nat (n mod 10))%N :: acc in
      if n <? 10 then acc' else digits fuel' (n / 10) acc'
  end.

(** [str(n)] for a non-negative [int]. *)
Definition str_of_int (n : nat) : str := digits (S n) n [].

(** [(r.password[:37] + "...") if len(r.password) > 40 else r.password] *)
Definition shown (pw : str) : str :=
  if 40 <? length pw then firstn 37 pw ++ text "..." else pw.

Definition SEP : str := text " │ ".

(** The header line up to the message column, and the header line. *)
Definition header_lead : str :=
  format_right 3 (text "N°") ++ SEP
  ++ format_left 40 (text "Password (abreviada)") ++ SEP
  ++ format_left 6 (text "Válido") ++ SEP.

Definition header : str := header_lead ++ text "Mensaje".

(** The line of an entry up to the message column, and the line. *)
Definition row_lead (r : Result) : str :=
  format_right 3 (str_of_int (line_no r)) ++ SEP
  ++ format_left 40 (shown (password r)) ++ SEP
  ++ format_center 6 (text (if valid r then "Sí" else "No")) ++ SEP.

Definition row (r : Result) : str := row_lead r ++ text (message r).

(** [a == b] on [str] *)
Fixpoint str_eqb (a b : str) : bool :=
  match a, b with
  | [], [] => true
  | x :: a', y :: b' => N.eqb x y && str_eqb a' b'
  | _, _ => false
  end.

(** How [main] ends: [return code], or an exception that leaves it, and
    what it had printed by then. *)
Inductive outcome : Type :=
| Exit (code : nat) (out : str)
| Uncaught (e : exn) (out : str).

(** The console: [sys.stdout] takes whatever is written to it, except the
    characters its encoding lacks.  The encodings Python gives a console
    all have the ASCII characters. *)
Class Stdout : Type := {
  can_encode : char -> bool;
  can_encode_ascii : forall c, (c < 128)%N -> can_encode c = true
}.

(** The variables of the loop over [argv]. *)
Record Args : Type := mkArgs {
  path : option str;
  summary : bool;
  export : option str
}.

(** [not path] *)
Definition no_path (p : option str) : bool :=
  match p with
  | None | Some [] => true
  | Some (_ :: _) => false
  end.

(** The arguments [main] tells apart. *)
Definition is_export (a : str) : bool := startswith a (text "--export=").

Definition is_summary (a : str) : bool := str_eqb a (text "--summary").

(** An argument the loop of [main] can take for the path: not an option it
    knows, and not empty. *)
Definition names_file (a : str) : bool :=
  negb (is_export a) && negb (is_summary a) && negb (no_path (Some a)).

Section Report.

Context {U : UnicodeData}.

Context {E : Stdout}.

(** [get_terminal_size((120, 20)).columns] *)
Variable columns : nat.

(** [f"{ok / total * 100.0:.1f}"]: float arithmetic, left to the
    interpreter. *)
Variable format_pct : nat -> nat -> str.

(** The file system: what opening and reading the file at a path gives. *)
Variable open_lines : str -> file_read.

(** The successive calls of [print] made by [print_table], by their
    argument. *)
Definition table_prints (results : list Result) : list str :=
  [repeat (ord "-") columns; header; repeat (ord "-") columns]
  ++ map row results
  ++ [repeat (ord "-") columns].

(** The text [print_table] writes when stdout can encode all of it. *)
Definition print_table (results : list Result) : str :=
  print (repeat (ord "-") columns)
  ++ print header
  ++ print (repeat (ord "-") columns)
  ++ flat_map (fun r => print (row r)) results
  ++ print (repeat (ord "-") columns).

(** The successive calls of [print] made by [print_summary]. *)
Definition summary_prints (results : list Result) : list str :=
  let total := length results in
  let ok := length (filter valid results) in
  [NEWLINE :: text "Resumen:";
   text "--------";
   if negb (total =? 0) then
     text "Válidas: " ++ str_of_int ok ++ text "/"
     ++ str_of_int total ++ text " (" ++ format_pct ok total
     ++ text "%)"
   else text "Sin casos"].

(** The text [print_summary] writes when stdout can encode all of it. *)
Definition print_summary (results : list Result) : str :=
  let total := length results in
  let ok := length (filter valid results) in
  print (NEWLINE :: text "Resumen:")
  ++ print (text "--------")
  ++ (if negb (total =? 0) then
        print (text "Válidas: " ++ str_of_int ok ++ text "/"
               ++ str_of_int total ++ text " (" ++ format_pct ok total
               ++ text "%)")
      else print (text "Sin casos")).

(** Calls of [print] in a row: each writes its text and a newline, unless
    stdout cannot encode a character of the text; then [print] raises
    [UnicodeEncodeError], nothing of that text is written and the calls
    after it do not happen.  The result is what was written and whether
    every call returned. *)
Fixpoint print_all (texts : list str) : str * bool :=
  match texts with
  | [] => ([], true)
  | s :: more =>
      if forallb can_encode s then
        let (out, ok) := print_all more in (print s ++ out, ok)
      else ([], false)
  end.

(** The end of [main] after its calls of [print]: [return code], or the
    exception of the call that failed. *)
Definition finish (code : nat) (printed : str * bool) : outcome :=
  if snd printed then Exit code (fst printed)
  else Uncaught UnicodeEncodeError (fst printed).

(** One round of the loop over [argv]. *)
Definition main_step (st : Args) (arg : str) : exn + Args :=
  if startswith arg (text "--export=") then
    match nth_error (split1 (text "=") arg) 1 with
    | Some v => inr (mkArgs (path st) (summary st) (Some v))
    | None => inl IndexError
    end
  else if str_eqb arg (text "--summary") then
    inr (mkArgs (path st) true (export st))
  else if no_path (path st) then
    inr (mkArgs (Some arg) (summary st) (export st))
  else inr st.

Fixpoint main_loop (argv : list str) (st : Args) : exn + Args :=
  match argv with
  | [] => inr st
  | arg :: more =>
      match main_step st arg with
      | inl e => inl e
      | inr st' => main_loop more st'
      end
  end.

Definition main (argv : list str) : outcome :=
  match argv with
  | [] =>
      finish 2 (print_all [text
        "Uso: python password_validator.py data_passwords.txt [--summary] "])
  | _ :: _ =>
      match main_loop argv (mkArgs None false None) with
      | inl e => Uncaught e []
      | inr st =>
          match path st with
          | None | Some [] =>
              finish 2 (print_all [text "Debe indicar ruta al .txt"])
          | Some (c :: p) =>
              match load_and_validate (open_lines (c :: p)) with
              | Raise e => Uncaught e []
              | Ok results =>
                  finish 0
                    (print_all
                       (table_prints results
                        ++ if summary st then summary_prints results
                           else []))
              end
          end
      end
  end.

(** What [main] does, from the first argument that names a file and the
    presence of [--summary]. *)
Definition main_does (argv : list str) : outcome :=
  match find names_file argv with
  | None =>
      Exit 2 (print (text
        match argv with
        | [] => "Uso: python password_validator.py data_passwords.txt [--summary] "
        | _ :: _ => "Debe indicar ruta al .txt"
        end))
  | Some p =>
      match load_and_validate (open_lines p) with
      | Raise e => Uncaught e []
      | Ok results =>
          finish 0
            (print_all
               (table_prints results
                ++ if existsb is_summary argv
                   then summary_prints results else []))
      end
  end.

End Report.

(** ** Vocabulary for the loader's properties *)

Section LoaderVocabulary.

Context {U : UnicodeData}.

(** The key of a keyed line: free of [':'], and not starting with
    whitespace or ['#'] unless empty. *)
Definition plain_key (key : str) : Prop :=
  ~ In (ord ":") key /\
  match key with
  | [] => True
  | c :: _ => isspace c = false /\ c <> ord "#"
  end.

(** The entries the loop appends for the lines [raws], numbered from [i]. *)
Fixpoint entries (raws : list str) (i : nat) : list Result :=
  match raws with
  | [] => []
  | raw :: more =>
      match parse_line raw with
      | Ok (Some pw) =>
          [mkResult i pw (fst (first_failure pw)) (snd (first_failure pw))]
      | _ => []
      end ++ entries more (S i)
  end.

(** The passwords of the lines [parse_line] keeps, in order. *)
Definition kept_passwords (lines : list str) : list str :=
  flat_map
    (fun line =>
       match parse_line line with
       | Ok (Some pw) => [pw]
       | _ => []
       end)
    lines.

End LoaderVocabulary.

(** The entry [r] with its line number moved up by [d]. *)
Definition renumber (d : nat) (r : Result) : Result :=
  mkResult (line_no r + d) (password r) (valid r) (message r).

(** The policy as one test. *)
Definition meets_policy (s : str) : bool :=
  charset_and_length_ok s && (3 <=? count ascii_upper s)
  && (3 <=? count ascii_digit s) && (1 <=? count special s).

(** A file system with two files, one of them not UTF-8 after its first
    line, for the instances of [main]. *)
Definition one_file (p : str) : file_read :=
  if str_eqb p (lit "data.txt")
  then Lines [lit "PASSWORD: AAA111###X"; lit "abc"]
  else if str_eqb p (lit "latin1.txt")
  then CannotDecode [lit "PASSWORD: AAA111###X"]
  else CannotOpen OSError.

(** A console in UTF-8, which has every character but the surrogates, and
    one in ASCII. *)
Definition utf8_stdout : Stdout :=
  {| can_encode := fun c => N.ltb c 0xD800 || N.ltb 0xDFFF c;
     can_encode_ascii := fun c H =>
       @eq_ind_r bool true (fun b => b || N.ltb 0xDFFF c = true) eq_refl
         (N.ltb c 0xD800)
         (proj2 (N.ltb_lt c 0xD800) (N.lt_trans c 128 0xD800 H eq_refl)) |}.

Definition ascii_stdout : Stdout :=
  {| can_encode := fun c => N.ltb c 128;
     can_encode_ascii := fun c H => proj2 (N.ltb_lt c 128) H |}.

(** * Properties *)

(** ** The Unicode tables agree with ASCII below 128 *)

Lemma in_ranges_ascii tbl c :
  (c < 128)%N ->
  in_ranges tbl c = in_ranges (filter (fun r => N.ltb (fst r) 128) tbl) c.
Proof.
  intros Hc. induction tbl as [|[lo hi] tbl IH]; simpl; [reflexivity|].
  destruct (N.ltb_spec lo 128); simpl.
  - now rewrite IH.
  - rewrite IH. unfold in_range at 1. simpl.
    destruct (N.leb_spec lo c); [lia|reflexivity].
Qed.

Lemma ND_TABLE_ascii c : (c < 128)%N -> in_ranges ND_TABLE c = ascii_digit c.
Proof.
  intros Hc. rewrite in_ranges_ascii by assumption. vm_compute filter.
  unfold in_ranges; simpl. now rewrite orb_false_r.
Qed.

Lemma SPACE_TABLE_ascii c : (c < 128)%N -> in_ranges SPACE_TABLE c = ascii_space c.
Proof.
  intros Hc. rewrite in_ranges_ascii by assumption. vm_compute filter.
  unfold in_ranges, ascii_space; simpl. now rewrite orb_false_r.
Qed.

#[export] Instance unicode14 : UnicodeData := {|
  isdecimal := in_ranges ND_TABLE;
  isspace := in_ranges SPACE_TABLE;
  isdecimal_ascii := ND_TABLE_ascii;
  isspace_ascii := SPACE_TABLE_ascii
|}.

(** ** Character classes *)

Section Classes.

Context {U : UnicodeData}.

Lemma in_cset_UPPER c : in_cset UPPER c = ascii_upper c.
Proof. unfold in_cset; simpl. apply orb_false_r. Qed.

Lemma in_cset_DIGIT c : in_cset DIGIT c = isdecimal c.
Proof. unfold in_cset; simpl. apply orb_false_r. Qed.

Lemma in_cset_SPECIAL c : in_cset SPECIAL c = special c.
Proof. reflexivity. Qed.

Lemma in_cset_ALLOWED c : in_cset ALLOWED c = allowed c.
Proof.
  unfold in_cset, allowed, ascii_upper, ascii_lower, ascii_digit, special.
  simpl. now rewrite !orb_assoc.
Qed.

Lemma in_range_bound lo hi c : in_range lo hi c = true -> (lo <= c <= hi)%N.
Proof.
  unfold in_range. rewrite andb_true_iff, !N.leb_le. tauto.
Qed.

Lemma allowed_is_ascii c : allowed c = true -> (33 <= c < 128)%N.
Proof.
  unfold allowed, ascii_upper, ascii_lower, ascii_digit, special.
  rewrite !orb_true_iff. intros [[[H|H]|H]|H].
  1-3: apply in_range_bound in H; cbn in H; lia.
  cbn in H. rewrite !orb_true_iff, !N.eqb_eq in H. lia.
Qed.

Lemma allowed_not_newline c : allowed c = true -> not_newline c = true.
Proof.
  intros H. apply allowed_is_ascii in H. unfold not_newline, NEWLINE.
  destruct (N.eqb_spec c 10); [lia|reflexivity].
Qed.

Lemma allowed_isdecimal c : allowed c = true -> isdecimal c = ascii_digit c.
Proof.
  intros H. apply isdecimal_ascii. apply allowed_is_ascii in H. lia.
Qed.

Lemma ascii_digit_allowed c : ascii_digit c = true -> allowed c = true.
Proof. unfold allowed. intros ->. now rewrite !orb_true_r. Qed.

Lemma forallb_allowed_not_newline s :
  forallb allowed s = true -> forallb not_newline s = true.
Proof.
  rewrite !forallb_forall. intros H c Hc. now apply allowed_not_newline, H.
Qed.

Lemma count_isdecimal_allowed s :
  forallb allowed s = true -> count isdecimal s = count ascii_digit s.
Proof.
  intros H. unfold count. f_equal. apply filter_ext_in.
  intros c Hc. apply allowed_isdecimal. rewrite forallb_forall in H. now apply H.
Qed.

End Classes.

(** ** The matcher *)

Section EngineFacts.

Context {U : UnicodeData}.

Lemma repeat_one_char_In p body :
  (forall pos rest, body pos rest = one_char p rest) ->
  forall fuel lo pos rest n,
    lo + length rest < fuel ->
    (In n (repeat_loop body fuel lo None pos rest) <->
     lo <= n <= length rest /\ forallb p (firstn n rest) = true).
Proof.
  intros Hb. induction fuel as [|fuel IH]; intros lo pos rest n Hf; [lia|].
  cbn [repeat_loop room]. rewrite Hb, in_app_iff.
  destruct rest as [|c tl]; cbn [one_char flat_map].
  - destruct lo; cbn; destruct n; cbn; intuition (try lia; try discriminate).
  - destruct (p c) eqn:Hc; cbn [flat_map].
    + rewrite app_nil_r. replace ((lo =? 0) && (1 =? 0)) with false
        by (now rewrite andb_false_r).
      rewrite in_map_iff. cbn [skipn].
      split.
      * intros [(m & <- & Hm)|Hz].
        -- apply IH in Hm; [|cbn in Hf; lia]. cbn. rewrite Hc.
           destruct Hm as [Hm ->]. split; [lia|reflexivity].
        -- destruct lo; cbn in Hz; [|contradiction].
           destruct Hz as [<-|[]]. cbn. split; [lia|reflexivity].
      * intros [Hn Hall]. destruct n as [|m].
        -- right. assert (lo = 0) as -> by lia. now left.
        -- left. exists m. split; [reflexivity|].
           cbn in Hall, Hn. rewrite Hc in Hall. apply IH; [cbn in Hf; lia|].
           split; [lia|exact Hall].
    + split.
      * intros [[]|Hz]. destruct lo; cbn in Hz; [|contradiction].
        destruct Hz as [<-|[]]. cbn. split; [lia|reflexivity].
      * intros [Hn Hall]. destruct n as [|m].
        -- right. assert (lo = 0) as -> by lia. now left.
        -- cbn in Hall. rewrite Hc in Hall. discriminate.
Qed.

End EngineFacts.

Section ReFacts.

Context {U : UnicodeData}.

Lemma truthy_fullmatch fuel r s :
  truthy (fullmatch_str fuel r s) = true <-> In (length s) (run fuel r 0 s).
Proof.
  unfold fullmatch_str.
  destruct (find (Nat.eqb (length s)) (run fuel r 0 s)) as [n|] eqn:Hfind; cbn.
  - apply find_some in Hfind. destruct Hfind as [Hin Heq].
    apply Nat.eqb_eq in Heq. subst n. tauto.
  - split; [discriminate|]. intros Hin.
    apply (find_none _ _ Hfind) in Hin. now rewrite Nat.eqb_refl in Hin.
Qed.

(** [re.fullmatch(r'[...]{lo,}', s)] succeeds exactly on the strings of at
    least [lo] characters, all of them in the class. *)
Lemma fullmatch_class_repeat fuel lo items s :
  lo + length s < fuel ->
  truthy (fullmatch_str fuel (MAX_REPEAT lo None (IN items)) s)
  = (lo <=? length s) && forallb (in_cset items) s.
Proof.
  intros Hf. apply eq_true_iff_eq. rewrite truthy_fullmatch. cbn [run].
  rewrite (@repeat_one_char_In (in_cset items) _ (fun _ _ => eq_refl)) by lia.
  rewrite firstn_all, andb_true_iff, Nat.leb_le. intuition lia.
Qed.

(** [re.findall] of a class pattern lists the characters in the class. *)
Lemma scan_class fuel items k pos rest :
  length rest < k ->
  scan k fuel (IN items) false pos rest
  = map (fun c => [c]) (filter (in_cset items) rest).
Proof.
  revert pos rest. induction k as [|k IH]; intros pos rest Hk; [lia|].
  cbn [scan run]. destruct rest as [|c tl]; [reflexivity|].
  cbn [one_char filter]. destruct (in_cset items c); cbn.
  - f_equal. apply IH. cbn in Hk. lia.
  - apply IH. cbn in Hk. lia.
Qed.

Lemma findall_class_length fuel items s :
  length s < fuel ->
  re_findall fuel (IN items) (PyStr s)
  = Ok (map (fun c => [c]) (filter (in_cset items) s)).
Proof.
  intros Hf. unfold re_findall. cbn. now rewrite scan_class.
Qed.

(** [re.search] of a class pattern finds a match exactly when some
    character is in the class. *)
Lemma search_class fuel items pos rest :
  truthy (search_from fuel (IN items) pos rest) = existsb (in_cset items) rest.
Proof.
  revert pos. induction rest as [|c tl IH]; intros pos; [reflexivity|].
  cbn [search_from run one_char existsb].
  destruct (in_cset items c); cbn; [reflexivity|apply IH].
Qed.

Lemma run_CAT_In fuel r1 r2 pos rest n :
  In n (run fuel (CAT r1 r2) pos rest) <->
  exists n1 n2,
    In n1 (run fuel r1 pos rest) /\
    In n2 (run fuel r2 (pos + n1) (skipn n1 rest)) /\ n = n1 + n2.
Proof.
  cbn [run]. rewrite in_flat_map. split.
  - intros (n1 & H1 & H2). apply in_map_iff in H2. destruct H2 as (n2 & <- & H2).
    now exists n1, n2.
  - intros (n1 & n2 & H1 & H2 & ->). exists n1. split; [exact H1|].
    apply in_map_iff. now exists n2.
Qed.

Lemma run_ASSERT fuel r pos rest n :
  In n (run fuel r pos rest) -> run fuel (ASSERT r) pos rest = [0].
Proof.
  cbn [run]. destruct (run fuel r pos rest); [contradiction|reflexivity].
Qed.

Lemma run_STAR_ANY_In fuel pos rest n :
  length rest < fuel ->
  (In n (run fuel (STAR ANY) pos rest) <->
   n <= length rest /\ forallb not_newline (firstn n rest) = true).
Proof.
  intros Hf. unfold STAR. cbn [run].
  rewrite (@repeat_one_char_In not_newline _ (fun _ _ => eq_refl)) by lia.
  intuition lia.
Qed.

(** [.*[...]] reaches every character of the class that no newline precedes. *)
Lemma run_until_class fuel items pos pre c post :
  length (pre ++ c :: post) < fuel ->
  forallb not_newline pre = true ->
  in_cset items c = true ->
  In (S (length pre)) (run fuel (STAR ANY @ IN items) pos (pre ++ c :: post)).
Proof.
  intros Hf Hpre Hc. apply run_CAT_In. exists (length pre), 1.
  split; [|split; [|lia]].
  - apply run_STAR_ANY_In; [exact Hf|]. rewrite length_app.
    split; [lia|]. rewrite firstn_app, Nat.sub_diag, firstn_all. cbn.
    now rewrite app_nil_r.
  - rewrite skipn_app, Nat.sub_diag, skipn_all. cbn. rewrite Hc. now left.
Qed.

Lemma skipn_past (pre : str) c post :
  skipn (S (length pre)) (pre ++ c :: post) = post.
Proof. induction pre as [|a pre IH]; [reflexivity|exact IH]. Qed.

(** The first character accepted by [p], when there is one. *)
Lemma first_occurrence (p : char -> bool) (s : str) :
  1 <= count p s ->
  exists pre c post,
    s = pre ++ c :: post /\ p c = true /\ count p post = count p s - 1 /\
    forall x, In x pre -> In x s.
Proof.
  unfold count. induction s as [|a s IH]; cbn; [lia|].
  destruct (p a) eqn:Ha; cbn.
  - intros _. exists [], a, s. cbn. repeat split; auto; try lia.
  - intros H. destruct (IH H) as (pre & c & post & -> & Hc & Hcnt & Hin).
    exists (a :: pre), c, post. cbn. repeat split; auto.
    intros x [->|Hx]; [now left|right; apply in_or_app; now left].
Qed.

(** [(?:.*[...]){k}] matches somewhere when the subject, free of newlines,
    has [k] characters of the class. *)
Lemma run_repeat_until_class fuel items :
  forall k loopfuel pos rest,
    length rest < fuel ->
    k + length rest < loopfuel ->
    forallb not_newline rest = true ->
    k <= count (in_cset items) rest ->
    exists n,
      In n (repeat_loop (run fuel (SUBPATTERN (STAR ANY @ IN items)))
              loopfuel k (Some k) pos rest).
Proof.
  induction k as [|k IH]; intros loopfuel pos rest Hf Hl Hnl Hk.
  - destruct loopfuel; [lia|]. exists 0. cbn [repeat_loop Nat.eqb].
    apply in_or_app. right. now left.
  - destruct loopfuel as [|loopfuel]; [lia|].
    destruct (first_occurrence (in_cset items) rest) as
      (pre & c & post & -> & Hc & Hcnt & Hin); [lia|].
    rewrite forallb_app in Hnl. apply andb_true_iff in Hnl.
    destruct Hnl as [Hpre Hpost]. cbn [forallb] in Hpost.
    apply andb_true_iff in Hpost. destruct Hpost as [_ Hpost].
    rewrite length_app in Hl, Hf. cbn [length] in Hl, Hf.
    destruct (IH loopfuel (pos + S (length pre)) post) as [n2 Hn2];
      try assumption; try lia.
    exists (S (length pre) + n2). cbn [repeat_loop room Nat.eqb andb pred option_map].
    apply in_or_app. left. apply in_flat_map. exists (S (length pre)). split.
    + change (run fuel (SUBPATTERN (STAR ANY @ IN items)))
        with (run fuel (STAR ANY @ IN items)).
      apply run_until_class; try assumption.
      rewrite length_app. cbn [length]. lia.
    + apply in_map_iff. exists n2. split; [reflexivity|].
      now rewrite skipn_past.
Qed.

End ReFacts.

(** ** The validator computes the ordered rule list *)

Section ValidatorFacts.

Context {U : UnicodeData}.

Lemma count_ext (p q : char -> bool) s :
  (forall c, p c = q c) -> count p s = count q s.
Proof. intros H. unfold count. f_equal. now apply filter_ext. Qed.

Lemma forallb_eq (p q : char -> bool) (s : str) :
  (forall c, p c = q c) -> forallb p s = forallb q s.
Proof. intros H. induction s as [|c s IH]; cbn; [reflexivity|]. now rewrite H, IH. Qed.

Lemma existsb_count (p : char -> bool) (s : str) :
  existsb p s = negb (count p s <? 1).
Proof.
  unfold count. induction s as [|c s IH]; cbn; [reflexivity|].
  destruct (p c); cbn; [reflexivity|exact IH].
Qed.

Lemma run_ASSERT_In fuel r pos rest n :
  In n (run fuel r pos rest) -> In 0 (run fuel (ASSERT r) pos rest).
Proof. intros H. rewrite (run_ASSERT _ _ _ _ _ H). now left. Qed.

(** The composite pattern accepts whatever passes the four separate checks. *)
Lemma PASSWORD_REGEX_accepts fuel s :
  10 + length s < fuel ->
  charset_and_length_ok s = true ->
  3 <= count ascii_upper s ->
  3 <= count isdecimal s ->
  1 <= count special s ->
  truthy (fullmatch_str fuel PASSWORD_REGEX s) = true.
Proof.
  intros Hf Hcl Hup Hdi Hsp.
  apply andb_true_iff in Hcl. destruct Hcl as [Hlen Hall].
  apply Nat.leb_le in Hlen.
  pose proof (forallb_allowed_not_newline _ Hall) as Hnl.
  apply truthy_fullmatch. unfold PASSWORD_REGEX.
  apply run_CAT_In. exists 0, (length s). split; [now left|]. split; [|lia].
  cbn [Nat.add skipn].
  (* (?=([A-Za-z0-9#$%!@+=]{10,})$) *)
  apply run_CAT_In. exists 0, (length s). split; [|split; [|lia]].
  { apply run_ASSERT_In with (n := length s + 0).
    apply run_CAT_In. exists (length s), 0. split; [|split; [|lia]].
    - change (In (length s)
                (repeat_loop (run fuel (IN ALLOWED)) fuel 10 None 0 s)).
      apply (@repeat_one_char_In (in_cset ALLOWED) _ (fun _ _ => eq_refl)); [lia|].
      rewrite firstn_all. split; [lia|].
      now rewrite (forallb_eq _ _ s in_cset_ALLOWED).
    - rewrite skipn_all. now left. }
  cbn [Nat.add skipn].
  (* (?=(?:.*[A-Z]){3}) *)
  apply run_CAT_In. exists 0, (length s). split; [|split; [|lia]].
  { destruct (@run_repeat_until_class _ fuel UPPER 3 fuel 0 s) as [n Hn];
      try assumption; try lia.
    - now rewrite (count_ext _ _ s in_cset_UPPER).
    - now apply run_ASSERT_In with (n := n). }
  cbn [Nat.add skipn].
  (* (?=(?:.*\d){3}) *)
  apply run_CAT_In. exists 0, (length s). split; [|split; [|lia]].
  { destruct (@run_repeat_until_class _ fuel DIGIT 3 fuel 0 s) as [n Hn];
      try assumption; try lia.
    - now rewrite (count_ext _ _ s in_cset_DIGIT).
    - now apply run_ASSERT_In with (n := n). }
  cbn [Nat.add skipn].
  (* (?=.*[#$%!@+=]) *)
  apply run_CAT_In. exists 0, (length s). split; [|split; [|lia]].
  { destruct (first_occurrence special s Hsp) as (pre & c & post & E & Hc & _ & _).
    apply run_ASSERT_In with (n := S (length pre)). rewrite E in Hf, Hnl |- *.
    rewrite forallb_app in Hnl. apply andb_true_iff in Hnl.
    apply run_until_class; [lia|tauto|exact Hc]. }
  cbn [Nat.add skipn].
  (* .*$ *)
  apply run_CAT_In. exists (length s), 0. split; [|split; [|lia]].
  - apply run_STAR_ANY_In; [lia|]. rewrite firstn_all. split; [lia|exact Hnl].
  - rewrite skipn_all. now left.
Qed.

(** The first check of the validator decides [charset_and_length_ok]. *)
Lemma fullmatch_charset_and_length fuel s :
  10 + length s < fuel ->
  truthy (fullmatch_str fuel (MAX_REPEAT 10 None (IN ALLOWED)) s)
  = charset_and_length_ok s.
Proof.
  intros Hf. rewrite fullmatch_class_repeat by lia.
  now rewrite (forallb_eq _ _ s in_cset_ALLOWED).
Qed.

(** With enough fuel the validator returns the first failing rule of the
    ordered list, and the composite pattern never overrides it. *)
Lemma validate_password_fuel_spec fuel s :
  10 + length s < fuel ->
  validate_password_fuel fuel (PyStr s) = Ok (first_failure s).
Proof.
  intros Hf. unfold validate_password_fuel, first_failure.
  cbn [isinstance_str negb].
  unfold re_fullmatch at 1. cbn [subject bind].
  rewrite fullmatch_charset_and_length by lia.
  destruct (charset_and_length_ok s) eqn:Hcl; cbn [negb].
  2:{ cbn [len bind]. now destruct (length s <? 10). }
  rewrite findall_class_length by lia. cbn [bind].
  rewrite length_map. fold (count (in_cset UPPER) s).
  rewrite (count_ext _ _ s in_cset_UPPER).
  destruct (count ascii_upper s <? 3) eqn:Hup; [reflexivity|].
  rewrite findall_class_length by lia. cbn [bind].
  rewrite length_map. fold (count (in_cset DIGIT) s).
  rewrite (count_ext _ _ s in_cset_DIGIT).
  pose proof Hcl as Hall. apply andb_true_iff in Hall. destruct Hall as [_ Hall].
  rewrite (count_isdecimal_allowed _ Hall).
  destruct (count ascii_digit s <? 3) eqn:Hdi; [reflexivity|].
  unfold re_search. cbn [subject bind]. rewrite search_class.
  rewrite (existsb_count (in_cset SPECIAL)), negb_involutive.
  change (in_cset SPECIAL) with special.
  destruct (count special s <? 1) eqn:Hsp; [reflexivity|].
  unfold re_fullmatch. cbn [subject bind].
  rewrite PASSWORD_REGEX_accepts; [reflexivity|lia|exact Hcl| | |].
  - apply Nat.ltb_ge in Hup. exact Hup.
  - rewrite (count_isdecimal_allowed _ Hall). apply Nat.ltb_ge in Hdi. exact Hdi.
  - apply Nat.ltb_ge in Hsp. exact Hsp.
Qed.

Lemma validate_password_spec s :
  validate_password (PyStr s) = Ok (first_failure s).
Proof. apply validate_password_fuel_spec. cbn [budget]. lia. Qed.

End ValidatorFacts.

(** ** The messages are pairwise distinct *)

Lemma MSG_OK_not_failure :
  MSG_OK <> MSG_SHORT_OR_CHARSET /\ MSG_OK <> MSG_CHARSET /\
  MSG_OK <> MSG_UPPER /\ MSG_OK <> MSG_DIGITS /\ MSG_OK <> MSG_SPECIAL.
Proof. repeat split; discriminate. Qed.

Lemma MSG_POLICY_not_returned :
  MSG_POLICY <> MSG_SHORT_OR_CHARSET /\ MSG_POLICY <> MSG_CHARSET /\
  MSG_POLICY <> MSG_UPPER /\ MSG_POLICY <> MSG_DIGITS /\
  MSG_POLICY <> MSG_SPECIAL /\ MSG_POLICY <> MSG_OK.
Proof. repeat split; discriminate. Qed.

(** ** The policy *)

Section Policy.

Context {U : UnicodeData}.

Lemma charset_and_length_ok_iff s :
  charset_and_length_ok s = true <->
  10 <= length s /\ forall c, In c s -> allowed c = true.
Proof.
  unfold charset_and_length_ok.
  now rewrite andb_true_iff, Nat.leb_le, forallb_forall.
Qed.

(** What [first_failure] returns, rule by rule. *)
Lemma first_failure_cases s :
  (charset_and_length_ok s = false /\ length s < 10 /\
   first_failure s = (false, MSG_SHORT_OR_CHARSET)) \/
  (charset_and_length_ok s = false /\ 10 <= length s /\
   first_failure s = (false, MSG_CHARSET)) \/
  (charset_and_length_ok s = true /\ count ascii_upper s < 3 /\
   first_failure s = (false, MSG_UPPER)) \/
  (charset_and_length_ok s = true /\ 3 <= count ascii_upper s /\
   count ascii_digit s < 3 /\ first_failure s = (false, MSG_DIGITS)) \/
  (charset_and_length_ok s = true /\ 3 <= count ascii_upper s /\
   3 <= count ascii_digit s /\ count special s < 1 /\
   first_failure s = (false, MSG_SPECIAL)) \/
  (charset_and_length_ok s = true /\ 3 <= count ascii_upper s /\
   3 <= count ascii_digit s /\ 1 <= count special s /\
   first_failure s = (true, MSG_OK)).
Proof.
  unfold first_failure.
  destruct (charset_and_length_ok s); cbn [negb].
  - destruct (Nat.ltb_spec (count ascii_upper s) 3); [tauto|].
    destruct (Nat.ltb_spec (count ascii_digit s) 3); [tauto|].
    destruct (Nat.ltb_spec (count special s) 1); [tauto|].
    do 5 right. tauto.
  - destruct (Nat.ltb_spec (length s) 10); tauto.
Qed.

(** C1: for every string [p], [validate_password(p)] returns [valid == True]
    if and only if [len(p) >= 10], every character of [p] is in
    [ALLOWED_SET], and [p] has at least 3 uppercase ASCII letters, at least
    3 ASCII digits and at least 1 character of the special set. *)
Theorem validate_password_valid_iff (p : str) :
  (exists reason, validate_password (PyStr p) = Ok (true, reason)) <->
  (10 <= length p /\
   (forall c, In c p -> allowed c = true) /\
   3 <= count ascii_upper p /\
   3 <= count ascii_digit p /\
   1 <= count special p).
Proof.
  rewrite validate_password_spec, <- and_assoc, <- charset_and_length_ok_iff.
  destruct (first_failure_cases p) as
    [(H1 & H2 & E)|[(H1 & H2 & E)|[(H1 & H2 & E)|[(H1 & H2 & H3 & E)|
    [(H1 & H2 & H3 & H4 & E)|(H1 & H2 & H3 & H4 & E)]]]]]; rewrite E, H1.
  1-5: split; [intros [reason Hr]; discriminate Hr|intros; exfalso].
  1-2: intuition discriminate.
  1-3: intuition lia.
  split; [tauto|]. intros _. now exists MSG_OK.
Qed.

Lemma forallb_false_exists (f : char -> bool) (s : str) :
  forallb f s = false -> exists c, In c s /\ f c = false.
Proof.
  induction s as [|a s IH]; cbn; [discriminate|].
  destruct (f a) eqn:Ha; cbn.
  - intros H. destruct (IH H) as (c & Hc & Hf). exists c. auto.
  - intros _. exists a. auto.
Qed.

Lemma non_ascii_not_allowed c : (128 <= c)%N -> allowed c = false.
Proof.
  intros Hc. destruct (allowed c) eqn:Ha; [|reflexivity].
  apply allowed_is_ascii in Ha. lia.
Qed.

(** C2: for every string [p] that fails the combined charset-and-length
    check, [valid] is [False]; the reason is the combined message when
    [len(p) < 10], and the disallowed-character message when [len(p) >= 10],
    in which case some character of [p] is outside [ALLOWED_SET]. *)
Theorem charset_length_failure_reason (p : str) :
  charset_and_length_ok p = false ->
  (length p < 10 ->
   validate_password (PyStr p) = Ok (false, MSG_SHORT_OR_CHARSET)) /\
  (10 <= length p ->
   (exists c, In c p /\ allowed c = false) /\
   validate_password (PyStr p) = Ok (false, MSG_CHARSET)).
Proof.
  intros Hfail. rewrite validate_password_spec. unfold first_failure.
  rewrite Hfail. cbn [negb]. split; intros Hlen.
  - apply Nat.ltb_lt in Hlen. now rewrite Hlen.
  - split.
    + apply forallb_false_exists. unfold charset_and_length_ok in Hfail.
      apply Nat.leb_le in Hlen. now rewrite Hlen in Hfail.
    + apply Nat.ltb_ge in Hlen. now rewrite Hlen.
Qed.

(** C3: the checks are evaluated in the order charset/length, uppercase
    count, digit count, special character, and the reason is that of the
    first failing check; a string that passes the charset-and-length check
    with fewer than 3 uppercase letters and fewer than 3 digits gets the
    uppercase reason, never the digit reason. *)
Theorem first_failing_check_wins (p : str) :
  (charset_and_length_ok p = false ->
   validate_password (PyStr p) = Ok (false, MSG_SHORT_OR_CHARSET) \/
   validate_password (PyStr p) = Ok (false, MSG_CHARSET)) /\
  (charset_and_length_ok p = true ->
   (count ascii_upper p < 3 ->
    validate_password (PyStr p) = Ok (false, MSG_UPPER)) /\
   (3 <= count ascii_upper p -> count ascii_digit p < 3 ->
    validate_password (PyStr p) = Ok (false, MSG_DIGITS)) /\
   (3 <= count ascii_upper p -> 3 <= count ascii_digit p ->
    count special p < 1 ->
    validate_password (PyStr p) = Ok (false, MSG_SPECIAL)) /\
   (count ascii_upper p < 3 -> count ascii_digit p < 3 ->
    validate_password (PyStr p) = Ok (false, MSG_UPPER) /\
    validate_password (PyStr p) <> Ok (false, MSG_DIGITS))).
Proof.
  rewrite validate_password_spec.
  destruct (first_failure_cases p) as
    [(H1 & H2 & E)|[(H1 & H2 & E)|[(H1 & H2 & E)|[(H1 & H2 & H3 & E)|
    [(H1 & H2 & H3 & H4 & E)|(H1 & H2 & H3 & H4 & E)]]]]]; rewrite E, H1.
  1-2: split; [auto|discriminate].
  all: split; [discriminate|intros _].
  all: repeat split; intros; try reflexivity; try lia; try discriminate.
Qed.

(** C4: the composite-policy branch is unreachable: for every string [p]
    that passes the checks 1 to 4, [PASSWORD_REGEX.fullmatch(p)] returns a
    match, and [validate_password] never returns the composite-policy
    reason. *)
Theorem composite_branch_unreachable (p : str) :
  (charset_and_length_ok p = true ->
   3 <= count ascii_upper p ->
   3 <= count ascii_digit p ->
   1 <= count special p ->
   exists m,
     re_fullmatch (budget (PyStr p)) PASSWORD_REGEX (PyStr p) = Ok (Some m)) /\
  (forall v, validate_password (PyStr p) <> Ok (v, MSG_POLICY)).
Proof.
  split.
  - intros Hcl Hup Hdi Hsp. unfold re_fullmatch. cbn [subject bind budget].
    assert (Hm : truthy (fullmatch_str (2 * length p + 12) PASSWORD_REGEX p)
                 = true).
    { apply PASSWORD_REGEX_accepts; try assumption; [lia|].
      apply andb_true_iff in Hcl. destruct Hcl as [_ Hall].
      now rewrite (count_isdecimal_allowed _ Hall). }
    destruct (fullmatch_str (2 * length p + 12) PASSWORD_REGEX p) as [m|];
      [now exists m|discriminate Hm].
  - intros v. rewrite validate_password_spec.
    destruct (first_failure_cases p) as
      [(H1 & H2 & E)|[(H1 & H2 & E)|[(H1 & H2 & E)|[(H1 & H2 & H3 & E)|
      [(H1 & H2 & H3 & H4 & E)|(H1 & H2 & H3 & H4 & E)]]]]]; rewrite E;
      intros H; injection H as _ H; discriminate H.
Qed.

(** C5: for every string input, [valid] is [True] exactly when the reason is
    ["OK"], and when [valid] is [False] the reason is one of the failure
    codes: charset/length violation (in either of its two wordings),
    insufficient uppercase, insufficient digits, missing special character. *)
Theorem verdict_invariant (p : str) :
  exists v reason,
    validate_password (PyStr p) = Ok (v, reason) /\
    (v = true <-> reason = MSG_OK) /\
    (v = false ->
     reason = MSG_SHORT_OR_CHARSET \/ reason = MSG_CHARSET \/
     reason = MSG_UPPER \/ reason = MSG_DIGITS \/ reason = MSG_SPECIAL).
Proof.
  rewrite validate_password_spec.
  destruct (first_failure_cases p) as
    [(H1 & H2 & E)|[(H1 & H2 & E)|[(H1 & H2 & E)|[(H1 & H2 & H3 & E)|
    [(H1 & H2 & H3 & H4 & E)|(H1 & H2 & H3 & H4 & E)]]]]]; rewrite E;
    eexists _, _; (split; [reflexivity|]); split;
    try (split; discriminate); try (split; reflexivity);
    try discriminate; intros _; auto 10.
Qed.

(** C6: [validate_password] returns a verdict and never raises, for every
    string and indeed for every argument; on the empty string it returns
    [valid == False] with the length/charset reason. *)
Theorem validate_password_never_raises :
  (forall p : str, exists v reason, validate_password (PyStr p) = Ok (v, reason)) /\
  (forall x : pyobj, exists v reason, validate_password x = Ok (v, reason)) /\
  validate_password (PyStr (lit "")) = Ok (false, MSG_SHORT_OR_CHARSET).
Proof.
  assert (Hstr : forall p : str,
             exists v reason, validate_password (PyStr p) = Ok (v, reason)).
  { intros p. rewrite validate_password_spec.
    destruct (first_failure p) as [v reason]. now exists v, reason. }
  split; [exact Hstr|]. split; [|reflexivity].
  intros [p|b|z|]; [apply Hstr| | |]; now exists false, MSG_NOT_STR.
Qed.

(** C7: every non-ASCII character is outside [ALLOWED_SET], and a string
    that contains one is rejected with the charset/length reason. *)
Theorem non_ascii_rejected :
  (forall c, (128 <= c)%N -> in_cset ALLOWED c = false) /\
  (forall p : str,
     (exists c, In c p /\ (128 <= c)%N) ->
     validate_password (PyStr p) =
     Ok (false,
         if length p <? 10 then MSG_SHORT_OR_CHARSET else MSG_CHARSET)).
Proof.
  split.
  - intros c Hc. rewrite in_cset_ALLOWED. now apply non_ascii_not_allowed.
  - intros p (c & Hin & Hc). rewrite validate_password_spec.
    unfold first_failure.
    assert (Hfail : charset_and_length_ok p = false).
    { unfold charset_and_length_ok. apply andb_false_iff. right.
      destruct (forallb allowed p) eqn:Hall; [|reflexivity].
      rewrite forallb_forall in Hall. apply Hall in Hin.
      rewrite (non_ascii_not_allowed Hc) in Hin. discriminate Hin. }
    rewrite Hfail. cbn [negb]. now destruct (length p <? 10).
Qed.

End Policy.

(** ** The work of the matcher *)

Section StepFacts.

Context {U : UnicodeData}.

Lemma succ_eqb_false n : (S n =? n) = false.
Proof. apply Nat.eqb_neq. lia. Qed.

Lemma try_char_cons p pos c tl (k : cont) :
  try_char p pos (c :: tl) k = step (if p c then k (S pos) tl else done None).
Proof. reflexivity. Qed.

Lemma try_char_nil p pos (k : cont) : try_char p pos [] k = Some (None, 1).
Proof. reflexivity. Qed.

(** A greedy run of one class up to the end of the subject, when the
    whole of it matches: no backtracking. *)
Lemma rounds_class_through p k c0 :
  (forall pos', k pos' [] = Some (Some pos', c0)) ->
  forall lo rest limit pos,
    lo + length rest < limit ->
    lo <= length rest ->
    forallb p rest = true ->
    rounds (try_char p) limit lo None pos rest k
    = Some (Some (pos + length rest), length rest + 1 + c0).
Proof.
  intros Hk lo rest. revert lo.
  induction rest as [|c tl IH]; intros lo limit pos Hlim Hlo Hall;
    (destruct limit as [|limit]; [lia|]); cbn [rounds room length option_map] in *.
  - assert (lo = 0) as -> by lia. rewrite try_char_nil. cbn [andthen].
    rewrite Hk, Nat.add_0_r. reflexivity.
  - cbn [forallb] in Hall. apply andb_true_iff in Hall. destruct Hall as [Hc Hall].
    destruct lo as [|lo]; rewrite try_char_cons, Hc.
    + rewrite succ_eqb_false, (IH 0 limit (S pos)) by (assumption || lia).
      cbn [step done andthen]. apply f_equal, f_equal2; [apply f_equal|]; lia.
    + rewrite (IH lo limit (S pos)) by (assumption || lia).
      cbn [step]. apply f_equal, f_equal2; [apply f_equal|]; lia.
Qed.

(** The same run when the subject must end where the run ends: it fails
    after at most one walk forth and back. *)
Lemma rounds_class_to_end p :
  forall lo rest limit pos,
    lo + length rest < limit ->
    exists res cost,
      rounds (try_char p) limit lo None pos rest at_subject_end
      = Some (res, cost) /\
      cost <= 2 * length rest + 2 /\
      (res <> None <-> lo <= length rest /\ forallb p rest = true).
Proof.
  intros lo rest. revert lo.
  induction rest as [|c tl IH]; intros lo limit pos Hlim;
    (destruct limit as [|limit]; [lia|]); cbn [rounds room length option_map] in *.
  - destruct lo as [|lo]; rewrite try_char_nil; unfold at_subject_end;
      cbn [step done andthen].
    + eexists _, _. split; [reflexivity|]. split; [lia|].
      split; [auto|discriminate].
    + eexists _, _. split; [reflexivity|]. split; [lia|].
      split; [congruence|lia].
  - cbn [forallb]. destruct lo as [|lo]; rewrite try_char_cons.
    + destruct (p c); cbn [andb].
      * rewrite succ_eqb_false.
        destruct (IH 0 limit (S pos)) as (res & cost & -> & Hcost & Hres);
          [lia|].
        destruct res as [e|]; cbn [step done andthen at_subject_end].
        -- eexists _, _. split; [reflexivity|]. split; [lia|].
           split; [intros _|discriminate]. split; [lia|].
           apply Hres. discriminate.
        -- eexists _, _. split; [reflexivity|]. split; [lia|].
           split; [congruence|]. intros [_ Hall].
           apply Hres. split; [lia|exact Hall].
      * cbn [step done andthen at_subject_end].
        eexists _, _. split; [reflexivity|]. split; [lia|].
        split; [congruence|]. intros [_ Hall]. discriminate Hall.
    + destruct (p c); cbn [andb].
      * destruct (IH lo limit (S pos)) as (res & cost & -> & Hcost & Hres);
          [lia|].
        cbn [step]. eexists _, _. split; [reflexivity|]. split; [lia|].
        rewrite Hres. split; intros [H1 H2]; (split; [lia|exact H2]).
      * cbn [step done]. eexists _, _. split; [reflexivity|]. split; [lia|].
        split; [congruence|]. intros [_ Hall]. discriminate Hall.
Qed.

(** [.*[...]] in front of [K], on input without newlines: [.*] walks to the
    end, then every character of the class met on the way back is tried
    with [K] until [K] accepts.  When [K] accepts exactly the inputs that
    have [k] characters of the class, at most [k + 1] of them are tried. *)
Lemma rounds_then_class p (K : cont) k n W :
  (forall pos' t,
     length t <= n -> forallb not_newline t = true ->
     exists res cost,
       K pos' t = Some (res, cost) /\ cost <= W /\
       (res <> None <-> k <= count p t)) ->
  forall rest limit pos,
    length rest < limit ->
    length rest <= n ->
    forallb not_newline rest = true ->
    exists res cost,
      rounds (try_char not_newline) limit 0 None pos rest
        (fun pos' rest' => try_char p pos' rest' K)
      = Some (res, cost) /\
      cost <= 2 * length rest + 2 + Nat.min (count p rest) (S k) * W /\
      (res <> None <-> S k <= count p rest).
Proof.
  intros HK. induction rest as [|c tl IH]; intros limit pos Hlim Hn Hnl;
    (destruct limit as [|limit]; [lia|]); cbn [rounds room length option_map] in *.
  - rewrite try_char_nil. cbn [andthen]. rewrite try_char_nil.
    eexists _, _. split; [reflexivity|]. split; [cbn; lia|].
    split; [congruence|]. cbn. lia.
  - cbn [forallb] in Hnl. apply andb_true_iff in Hnl. destruct Hnl as [Hc Hnl].
    rewrite try_char_cons, Hc, succ_eqb_false.
    destruct (IH limit (S pos)) as (res & cost & -> & Hcost & Hres);
      [lia|lia|exact Hnl|].
    unfold count in *. cbn [filter].
    destruct res as [e|]; cbn [step done andthen].
    + assert (Hcnt : S k <= length (filter p tl)) by (apply Hres; discriminate).
      eexists _, _. split; [reflexivity|]. split.
      * destruct (p c); cbn [length];
          rewrite Nat.min_r in * by lia; lia.
      * split; [intros _|discriminate]. destruct (p c); cbn [length]; lia.
    + assert (Hcnt : ~ S k <= length (filter p tl))
        by (intros H; apply Hres in H; congruence).
      rewrite Nat.min_l in Hcost by lia.
      rewrite try_char_cons. destruct (p c); cbn [length].
      * destruct (HK (S pos) tl) as (res & cost' & -> & Hcost' & Hres');
          [lia|exact Hnl|].
        cbn [step andthen]. eexists _, _. split; [reflexivity|]. split.
        -- rewrite Nat.min_l by lia. cbn [Nat.mul]. lia.
        -- rewrite Hres'. unfold count. lia.
      * cbn [step done andthen]. eexists _, _. split; [reflexivity|]. split.
        -- rewrite Nat.min_l by lia. lia.
        -- split; [congruence|lia].
Qed.

Lemma rounds_bound_mono k n m : n <= m -> rounds_bound k n <= rounds_bound k m.
Proof.
  intros H. induction k as [|k IH]; cbn [rounds_bound]; [lia|].
  apply Nat.add_le_mono; [lia|]. now apply Nat.mul_le_mono_l.
Qed.

(** [(?:.*[...]){k}] inside a lookahead, on input without newlines: it
    succeeds exactly when [k] characters of the class are there, within
    [rounds_bound k] steps. *)
Lemma rounds_until_class items n :
  forall k limit pos t,
    k < limit ->
    length t <= n ->
    forallb not_newline t = true ->
    exists res cost,
      rounds (attempt (SUBPATTERN (STAR ANY @ IN items))) limit k (Some k)
        pos t found_here
      = Some (res, cost) /\
      cost <= rounds_bound k n /\
      (res <> None <-> k <= count (in_cset items) t).
Proof.
  induction k as [|k IH]; intros limit pos t Hlim Hn Hnl;
    (destruct limit as [|limit]; [lia|]);
    cbn [rounds room option_map pred Nat.eqb].
  - exists (Some pos), 0. split; [reflexivity|]. split; [cbn; lia|].
    split; [lia|discriminate].
  - change (attempt (SUBPATTERN (STAR ANY @ IN items)) pos t)
      with (fun k0 : cont =>
              rounds (try_char not_newline) (S (0 + length t)) 0 None pos t
                (fun pos' rest' => try_char (in_cset items) pos' rest' k0)).
    cbv beta.
    destruct (@rounds_then_class (in_cset items)
                (fun pos' rest' =>
                   rounds (attempt (SUBPATTERN (STAR ANY @ IN items))) limit k
                     (Some k) pos' rest' found_here)
                k n (rounds_bound k n)) with (rest := t) (limit := S (0 + length t))
                                             (pos := pos)
      as (res & cost & -> & Hcost & Hres); try assumption; try lia.
    + intros pos' t' Hn' Hnl'. apply IH; [lia|exact Hn'|exact Hnl'].
    + exists res, cost. split; [reflexivity|]. split; [|exact Hres].
      cbn [rounds_bound].
      assert (Nat.min (count (in_cset items) t) (S k) * rounds_bound k n
              <= S k * rounds_bound k n)
        by (apply Nat.mul_le_mono_r; lia).
      lia.
Qed.

(** [re.search] of a class: one step per offset. *)
Lemma search_steps_class items :
  forall rest pos,
    exists res cost,
      search_steps (IN items) pos rest = Some (res, cost) /\
      cost <= length rest + 1 /\
      truthy res = existsb (in_cset items) rest.
Proof.
  induction rest as [|c tl IH]; intros pos; cbn [search_steps attempt].
  - rewrite try_char_nil. cbn [andthen done].
    eexists _, _. split; [reflexivity|]. split; [cbn; lia|reflexivity].
  - rewrite try_char_cons. cbn [existsb]. destruct (in_cset items c).
    + cbn [step done andthen]. eexists _, _. split; [reflexivity|].
      split; [cbn; lia|reflexivity].
    + cbn [step done andthen].
      destruct (IH (S pos)) as (res & cost & -> & Hcost & Hres).
      eexists _, _. split; [reflexivity|]. split; [cbn [length]; lia|exact Hres].
Qed.

(** [re.findall] of a class: one step per offset. *)
Lemma scan_steps_class items :
  forall k rest pos,
    length rest < k ->
    exists cost,
      scan_steps k (IN items) false pos rest
      = Some (map (fun c => [c]) (filter (in_cset items) rest), cost) /\
      cost <= length rest + 1.
Proof.
  induction k as [|k IH]; intros rest pos Hk; [lia|].
  cbn [scan_steps attempt andb]. destruct rest as [|c tl].
  - rewrite try_char_nil. cbn [andthen done].
    eexists. split; [reflexivity|]. cbn. lia.
  - rewrite try_char_cons. cbn [filter]. destruct (in_cset items c).
    + cbn [step done andthen]. replace (S pos - pos) with 1 by lia.
      cbn [Nat.eqb skipn firstn].
      destruct (IH tl (S pos)) as (cost & -> & Hcost); [cbn in Hk; lia|].
      cbn [andthen done map]. eexists. split; [reflexivity|].
      cbn [length]. lia.
    + cbn [step done andthen].
      destruct (IH tl (S pos)) as (cost & -> & Hcost); [cbn in Hk; lia|].
      eexists. split; [reflexivity|]. cbn [length]. lia.
Qed.

Lemma attempt_lookahead r1 r2 pos rest (k : cont) e c1 res c2 :
  attempt r1 pos rest found_here = Some (Some e, c1) ->
  attempt r2 pos rest k = Some (res, c2) ->
  attempt (ASSERT r1 @ r2) pos rest k = Some (res, c1 + c2).
Proof.
  intros H1 H2. cbn [attempt]. fold found_here. rewrite H1. cbn [andthen].
  now rewrite H2.
Qed.

Lemma attempt_at_beginning r2 rest (k : cont) res c :
  attempt r2 0 rest k = Some (res, c) ->
  attempt (AT_BEGINNING @ r2) 0 rest k = Some (res, S c).
Proof. intros H. cbn [attempt Nat.eqb]. now rewrite H. Qed.

(** The first check: [re.fullmatch(r'[A-Za-z0-9#$%!@+=]{10,}', pw)]. *)
Lemma re_fullmatch_steps_charset s :
  exists m cost,
    re_fullmatch_steps (MAX_REPEAT 10 None (IN ALLOWED)) (PyStr s)
    = Some (Ok m, cost) /\
    cost <= 2 * length s + 2 /\
    truthy m = charset_and_length_ok s.
Proof.
  unfold re_fullmatch_steps, on_subject, fullmatch_steps. cbn [subject].
  change (attempt (MAX_REPEAT 10 None (IN ALLOWED)) 0 s)
    with (rounds (try_char (in_cset ALLOWED)) (S (10 + length s)) 10 None 0 s).
  fold at_subject_end.
  destruct (@rounds_class_to_end (in_cset ALLOWED) 10 s (S (10 + length s)) 0)
    as (res & cost & -> & Hcost & Hres); [lia|].
  rewrite (forallb_eq _ _ s in_cset_ALLOWED) in Hres.
  destruct res as [e|]; cbn [andthen done].
  - eexists _, _. split; [reflexivity|]. split; [lia|]. cbn [truthy].
    symmetry. apply charset_and_length_ok_iff.
    assert (H : 10 <= length s /\ forallb allowed s = true)
      by (apply Hres; discriminate).
    rewrite forallb_forall in H. exact H.
  - eexists _, _. split; [reflexivity|]. split; [lia|]. cbn [truthy].
    destruct (charset_and_length_ok s) eqn:E; [|reflexivity].
    apply andb_true_iff in E. destruct E as [E1 E2]. apply Nat.leb_le in E1.
    exfalso. assert (@None nat <> None) by (apply Hres; tauto). congruence.
Qed.

Lemma re_findall_steps_class items s :
  exists cost,
    re_findall_steps (IN items) (PyStr s)
    = Some (Ok (map (fun c => [c]) (filter (in_cset items) s)), cost) /\
    cost <= length s + 1.
Proof.
  unfold re_findall_steps, on_subject. cbn [subject].
  destruct (@scan_steps_class items (2 * length s + 2) s 0)
    as (cost & -> & Hcost); [lia|].
  cbn [andthen done]. eexists. split; [reflexivity|]. lia.
Qed.

Lemma re_search_steps_class items s :
  exists m cost,
    re_search_steps (IN items) (PyStr s) = Some (Ok m, cost) /\
    cost <= length s + 1 /\
    truthy m = existsb (in_cset items) s.
Proof.
  unfold re_search_steps, on_subject. cbn [subject].
  destruct (search_steps_class items s 0) as (res & cost & -> & Hcost & Hres).
  cbn [andthen done]. eexists _, _. split; [reflexivity|].
  split; [lia|exact Hres].
Qed.

(** The composite pattern on a string that passes the four checks: every
    lookahead succeeds, within a number of steps linear in the length. *)
Lemma re_fullmatch_steps_composite s :
  charset_and_length_ok s = true ->
  3 <= count ascii_upper s ->
  3 <= count ascii_digit s ->
  1 <= count special s ->
  exists m cost,
    re_fullmatch_steps PASSWORD_REGEX (PyStr s) = Some (Ok (Some m), cost) /\
    cost <= 44 * length s + 48.
Proof.
  intros Hcl Hup Hdi Hsp.
  apply andb_true_iff in Hcl. destruct Hcl as [Hlen Hall].
  apply Nat.leb_le in Hlen.
  pose proof (forallb_allowed_not_newline _ Hall) as Hnl.
  (* .*$ *)
  assert (P5 : attempt (STAR ANY @ AT_END) 0 s at_subject_end
               = Some (Some (0 + length s), length s + 1 + 2)).
  { change (attempt (STAR ANY @ AT_END) 0 s at_subject_end)
      with (rounds (try_char not_newline) (S (0 + length s)) 0 None 0 s
              (fun pos' rest' => attempt AT_END pos' rest' at_subject_end)).
    apply rounds_class_through; try assumption; try lia. reflexivity. }
  (* (?=.*[#$%!@+=]) *)
  assert (P4 : exists e c4,
             attempt (STAR ANY @ IN SPECIAL) 0 s found_here = Some (Some e, c4) /\
             c4 <= 2 * length s + 2).
  { change (attempt (STAR ANY @ IN SPECIAL) 0 s found_here)
      with (rounds (try_char not_newline) (S (0 + length s)) 0 None 0 s
              (fun pos' rest' => try_char special pos' rest' found_here)).
    destruct (@rounds_then_class special found_here 0 (length s) 0)
      with (rest := s) (limit := S (0 + length s)) (pos := 0)
      as (res & cost & -> & Hcost & Hres); try assumption; try lia.
    - intros pos' t _ _. exists (Some pos'), 0. split; [reflexivity|].
      split; [lia|]. split; [lia|discriminate].
    - destruct res as [e|]; [|exfalso; apply Hres in Hsp; congruence].
      exists e, cost. split; [reflexivity|]. lia. }
  destruct P4 as (e4 & c4 & P4 & Hc4).
  (* (?=(?:.*\d){3}) and (?=(?:.*[A-Z]){3}) *)
  assert (P23 : forall items,
             3 <= count (in_cset items) s ->
             exists e c,
               attempt (MAX_REPEAT 3 (Some 3) (SUBPATTERN (STAR ANY @ IN items)))
                 0 s found_here = Some (Some e, c) /\
               c <= 20 * length s + 20).
  { intros items Hcount.
    change (attempt (MAX_REPEAT 3 (Some 3) (SUBPATTERN (STAR ANY @ IN items)))
              0 s found_here)
      with (rounds (attempt (SUBPATTERN (STAR ANY @ IN items)))
              (S (3 + length s)) 3 (Some 3) 0 s found_here).
    destruct (@rounds_until_class items (length s) 3 (S (3 + length s)) 0 s)
      as (res & cost & -> & Hcost & Hres); try assumption; try lia.
    destruct res as [e|]; [|exfalso; apply Hres in Hcount; congruence].
    exists e, cost. split; [reflexivity|]. cbn [rounds_bound] in Hcost. lia. }
  destruct (P23 DIGIT) as (e3 & c3 & P3 & Hc3).
  { rewrite (count_ext _ _ s in_cset_DIGIT).
    now rewrite (count_isdecimal_allowed _ Hall). }
  destruct (P23 UPPER) as (e2 & c2 & P2 & Hc2).
  { now rewrite (count_ext _ _ s in_cset_UPPER). }
  (* (?=([A-Za-z0-9#$%!@+=]{10,})$) *)
  assert (P1 : attempt (SUBPATTERN (MAX_REPEAT 10 None (IN ALLOWED)) @ AT_END)
                 0 s found_here
               = Some (Some (0 + length s), length s + 1 + 1)).
  { change (attempt (SUBPATTERN (MAX_REPEAT 10 None (IN ALLOWED)) @ AT_END)
              0 s found_here)
      with (rounds (try_char (in_cset ALLOWED)) (S (10 + length s)) 10 None 0 s
              (fun pos' rest' => attempt AT_END pos' rest' found_here)).
    apply rounds_class_through; try lia; [reflexivity|].
    now rewrite (forallb_eq _ _ s in_cset_ALLOWED). }
  unfold re_fullmatch_steps, on_subject, fullmatch_steps. cbn [subject].
  fold at_subject_end. unfold PASSWORD_REGEX.
  rewrite (attempt_at_beginning _ _ _
             (attempt_lookahead _ _ _ _ _ P1
                (attempt_lookahead _ _ _ _ _ P2
                   (attempt_lookahead _ _ _ _ _ P3
                      (attempt_lookahead _ _ _ _ _ P4 P5))))).
  cbn [andthen done]. eexists _, _. split; [reflexivity|]. lia.
Qed.

(** The validator with its steps counted returns the first failing rule
    of the ordered list, within a number of steps linear in the length. *)
Lemma validate_password_steps_spec s :
  exists cost,
    validate_password_steps (PyStr s) = Some (Ok (first_failure s), cost) /\
    cost <= 50 * length s + 60.
Proof.
  unfold validate_password_steps, first_failure. cbn [isinstance_str negb].
  destruct (re_fullmatch_steps_charset s) as (m & c1 & -> & Hc1 & Hm).
  unfold next at 1. cbn [andthen]. rewrite Hm.
  destruct (charset_and_length_ok s) eqn:Hcl; cbn [negb].
  2:{ cbn [len next done andthen].
      destruct (length s <? 10); eexists; (split; [reflexivity|lia]). }
  destruct (re_findall_steps_class UPPER s) as (c2 & -> & Hc2).
  unfold next at 1. cbn [andthen]. rewrite length_map.
  fold (count (in_cset UPPER) s). rewrite (count_ext _ _ s in_cset_UPPER).
  destruct (Nat.ltb_spec (count ascii_upper s) 3) as [Hup|Hup].
  { cbn [done]. eexists. split; [reflexivity|lia]. }
  destruct (re_findall_steps_class DIGIT s) as (c3 & -> & Hc3).
  unfold next at 1. cbn [andthen]. rewrite length_map.
  fold (count (in_cset DIGIT) s). rewrite (count_ext _ _ s in_cset_DIGIT).
  pose proof Hcl as Hall. apply andb_true_iff in Hall. destruct Hall as [_ Hall].
  rewrite (count_isdecimal_allowed _ Hall).
  destruct (Nat.ltb_spec (count ascii_digit s) 3) as [Hdi|Hdi].
  { cbn [done]. eexists. split; [reflexivity|lia]. }
  destruct (re_search_steps_class SPECIAL s) as (sp & c4 & -> & Hc4 & Hsp).
  unfold next at 1. cbn [andthen]. rewrite Hsp.
  rewrite (existsb_count (in_cset SPECIAL)), negb_involutive.
  change (in_cset SPECIAL) with special.
  destruct (Nat.ltb_spec (count special s) 1) as [Hsp1|Hsp1].
  { cbn [done]. eexists. split; [reflexivity|lia]. }
  destruct (re_fullmatch_steps_composite s Hcl Hup Hdi Hsp1)
    as (g & c5 & -> & Hc5).
  unfold next. cbn [andthen truthy done]. eexists. split; [reflexivity|lia].
Qed.

(** C9: [validate_password] terminates on every string, within a number
    of steps linear in its length: run by the backtracking matcher with
    its steps counted, no loop is cut short, the verdict is the one
    [validate_password] returns, and the tests of a character or of a
    position number at most [50 * len(p) + 60]. *)
Theorem validate_password_terminates (p : str) :
  exists steps,
    validate_password_steps (PyStr p)
    = Some (validate_password (PyStr p), steps) /\
    steps <= 50 * length p + 60.
Proof. rewrite validate_password_spec. apply validate_password_steps_spec. Qed.

End StepFacts.

(** ** The loader *)

Section LoaderFacts.

Context {U : UnicodeData}.

Lemma lstrip_keeps_last l c :
  isspace c = false -> exists l', lstrip (l ++ [c]) = l' ++ [c].
Proof.
  intros Hc. induction l as [|a l IH]; cbn.
  - rewrite Hc. now exists [].
  - destruct (isspace a); [exact IH|]. now exists (a :: l).
Qed.

(** Stripping keeps a first character that is not whitespace. *)
Lemma strip_keeps_head c tl :
  isspace c = false -> exists tl', strip (c :: tl) = c :: tl'.
Proof.
  intros Hc. unfold strip, rstrip. cbn [lstrip]. rewrite Hc. cbn [rev].
  destruct (lstrip_keeps_last (rev tl) c Hc) as [l' ->].
  rewrite rev_app_distr. cbn. now exists (rev l').
Qed.

Lemma hash_not_space : isspace (ord "#") = false.
Proof. rewrite isspace_ascii; [reflexivity|]. cbn. lia. Qed.

Lemma str_in_char sep s : str_in [sep] s = true <-> In sep s.
Proof.
  induction s as [|c s IH]; cbn; [intuition discriminate|].
  rewrite andb_true_r, orb_true_iff, N.eqb_eq, IH. intuition.
Qed.

(** Splitting once at a character that occurs: the text before its first
    occurrence and the text after it. *)
Lemma split1_char sep s :
  In sep s ->
  exists k v, s = k ++ sep :: v /\ ~ In sep k /\ split1 [sep] s = [k; v].
Proof.
  induction s as [|c s IH]; [contradiction|].
  cbn [split1 startswith length skipn]. rewrite andb_true_r.
  destruct (N.eqb_spec c sep) as [->|Hne].
  - intros _. exists [], s. cbn. auto.
  - intros [Heq|Hin]; [congruence|].
    destruct (IH Hin) as (k & v & -> & Hk & ->).
    exists (c :: k), v. cbn. repeat split; auto. intros [Heq|Hk']; auto.
Qed.

Lemma parse_line_skip line :
  strip line = [] \/ (exists tl, strip line = ord "#" :: tl) ->
  parse_line line = Ok None.
Proof.
  unfold parse_line. intros [->|[tl ->]]; reflexivity.
Qed.

Lemma parse_line_never_raises line : exists o, parse_line line = Ok o.
Proof.
  unfold parse_line.
  destruct ((match strip line with [] => true | _ :: _ => false end)
            || startswith (strip line) (lit "#")); [now exists None|].
  destruct (str_in (lit ":") (strip line)) eqn:Hin; [|now eexists].
  apply str_in_char in Hin. destruct (split1_char _ _ Hin) as (k & v & _ & _ & E).
  change (lit ":") with [ord ":"]. rewrite E. now eexists.
Qed.

(** What the loop appends: one entry per line that [parse_line] keeps,
    numbered from [i], holding the verdict of [validate_password] on the
    extracted password. *)
Lemma load_loop_appends raws :
  forall i out res,
    load_loop raws i out = Ok res ->
    exists added,
      res = out ++ added /\
      forall r, In r added ->
        i <= line_no r /\
        exists raw,
          nth_error raws (line_no r - i) = Some raw /\
          parse_line raw = Ok (Some (password r)) /\
          validate_password (PyStr (password r)) = Ok (valid r, message r).
Proof.
  induction raws as [|raw more IH]; intros i out res; cbn [load_loop].
  - intros [= <-]. exists []. rewrite app_nil_r. split; [reflexivity|].
    intros r [].
  - destruct (parse_line raw) as [[pw|]|e] eqn:Hparse; cbn [bind];
      [|intros H|discriminate].
    + destruct (validate_password (PyStr pw)) as [[v reason]|e] eqn:Hval;
        cbn [bind fst snd]; [intros H|discriminate].
      destruct (IH _ _ _ H) as (added & -> & Hadded).
      exists (mkResult i pw v reason :: added). rewrite <- app_assoc.
      split; [reflexivity|]. intros r [<-|Hr]; cbn [line_no password valid message].
      * split; [lia|]. exists raw. rewrite Nat.sub_diag. auto.
      * destruct (Hadded r Hr) as (Hi & raw' & Hnth & Hp & Hv).
        split; [lia|]. exists raw'.
        replace (line_no r - i) with (S (line_no r - S i)) by lia. auto.
    + destruct (IH _ _ _ H) as (added & -> & Hadded).
      exists added. split; [reflexivity|]. intros r Hr.
      destruct (Hadded r Hr) as (Hi & raw' & Hnth & Hp & Hv).
      split; [lia|]. exists raw'.
      replace (line_no r - i) with (S (line_no r - S i)) by lia. auto.
Qed.

Lemma load_and_validate_entries lines out :
  load_and_validate (Lines lines) = Ok out ->
  forall r, In r out ->
    exists raw,
      nth_error lines (line_no r - 1) = Some raw /\ 1 <= line_no r /\
      parse_line raw = Ok (Some (password r)) /\
      validate_password (PyStr (password r)) = Ok (valid r, message r).
Proof.
  intros H r Hr. apply load_loop_appends in H.
  destruct H as (added & -> & Hadded). cbn [app] in Hr.
  destruct (Hadded r Hr) as (Hi & raw & Hnth & Hp & Hv). exists raw. auto.
Qed.

(** [parse_line] and [validate_password] raise nothing in the loop. *)
Lemma load_loop_never_raises raws :
  forall i out, exists res, load_loop raws i out = Ok res.
Proof.
  induction raws as [|raw more IH]; intros i out; cbn [load_loop].
  - now exists out.
  - destruct (parse_line_never_raises raw) as [[pw|] ->]; cbn [bind].
    + rewrite validate_password_spec. cbn [bind]. apply IH.
    + apply IH.
Qed.

End LoaderFacts.

(** ** The scenarios of the specification, on the Unicode 14 tables *)

Example scenario_valid :
  validate_password (PyStr (lit "AAA111###X")) = Ok (true, MSG_OK).
Proof. reflexivity. Qed.

Example scenario_short :
  validate_password (PyStr (lit "aaa111###")) = Ok (false, MSG_SHORT_OR_CHARSET).
Proof. reflexivity. Qed.

Example scenario_no_uppercase :
  validate_password (PyStr (lit "aaa111###x")) = Ok (false, MSG_UPPER).
Proof. reflexivity. Qed.

Example scenario_two_digits :
  validate_password (PyStr (lit "AAA11####x")) = Ok (false, MSG_DIGITS).
Proof. reflexivity. Qed.

Example scenario_no_special :
  validate_password (PyStr (lit "AAA1111111")) = Ok (false, MSG_SPECIAL).
Proof. reflexivity. Qed.

Example scenario_trailing_newline :
  validate_password (PyStr (lit "AAA111###X" ++ [NEWLINE]))
  = Ok (false, MSG_CHARSET).
Proof. reflexivity. Qed.

(** A non-ASCII decimal digit is matched by [\d] but is not allowed. *)
Example scenario_arabic_digits :
  isdecimal 0x661%N = true /\
  validate_password (PyStr (lit "AAA###xx" ++ [0x661; 0x662; 0x663]%N))
  = Ok (false, MSG_CHARSET).
Proof. split; reflexivity. Qed.

(** In the keyed form the text after the colon is the password, whatever
    its first character. *)
Example parse_line_keyed :
  parse_line (lit "PASSWORD: #AAA111bcd" ++ [NEWLINE])
  = Ok (Some (lit "#AAA111bcd")).
Proof. reflexivity. Qed.

(** ** Instances of the theorems on concrete inputs *)

Lemma charset_length_failure_reason_witness :
  charset_and_length_ok (lit "aaa111###") = false /\
  validate_password (PyStr (lit "aaa111###"))
  = Ok (false, MSG_SHORT_OR_CHARSET).
Proof.
  split; [reflexivity|].
  apply (proj1 (@charset_length_failure_reason unicode14 (lit "aaa111###")
                  eq_refl)).
  cbn. lia.
Defined.

Lemma first_failing_check_wins_witness :
  charset_and_length_ok (lit "aaa11####x") = true /\
  count ascii_upper (lit "aaa11####x") < 3 /\
  count ascii_digit (lit "aaa11####x") < 3 /\
  validate_password (PyStr (lit "aaa11####x")) = Ok (false, MSG_UPPER) /\
  validate_password (PyStr (lit "aaa11####x")) <> Ok (false, MSG_DIGITS).
Proof.
  assert (Hup : count ascii_upper (lit "aaa11####x") < 3) by (cbn; lia).
  assert (Hdi : count ascii_digit (lit "aaa11####x") < 3) by (cbn; lia).
  split; [reflexivity|]. split; [exact Hup|]. split; [exact Hdi|].
  destruct (@first_failing_check_wins unicode14 (lit "aaa11####x")) as [_ H].
  destruct (H eq_refl) as (_ & _ & _ & H4). exact (H4 Hup Hdi).
Defined.

Lemma composite_branch_unreachable_witness :
  charset_and_length_ok (lit "AAA111###X") = true /\
  exists m,
    re_fullmatch (budget (PyStr (lit "AAA111###X"))) PASSWORD_REGEX
      (PyStr (lit "AAA111###X")) = Ok (Some m).
Proof.
  split; [reflexivity|].
  apply (proj1 (@composite_branch_unreachable unicode14 (lit "AAA111###X")));
    [reflexivity|cbn; lia|cbn; lia|cbn; lia].
Defined.

Lemma non_ascii_rejected_witness :
  In 0xC1%N (0xC1%N :: lit "AA111###X1A") /\ (128 <= 0xC1)%N /\
  validate_password (PyStr (0xC1%N :: lit "AA111###X1A"))
  = Ok (false, MSG_CHARSET).
Proof.
  assert (Hin : In 0xC1%N (0xC1%N :: lit "AA111###X1A")) by (now left).
  assert (Hc : (128 <= 0xC1)%N) by lia.
  split; [exact Hin|]. split; [exact Hc|].
  apply (proj2 (@non_ascii_rejected unicode14) (0xC1%N :: lit "AA111###X1A")).
  exists 0xC1%N. split; [exact Hin|exact Hc].
Defined.

Lemma validate_password_terminates_witness :
  exists steps,
    validate_password_steps (PyStr (lit "AAA111###X"))
    = Some (validate_password (PyStr (lit "AAA111###X")), steps) /\
    steps <= 50 * length (lit "AAA111###X") + 60.
Proof. exact (@validate_password_terminates unicode14 (lit "AAA111###X")). Defined.

Lemma validate_password_valid_iff_witness :
  10 <= length (lit "AAA111###X") /\
  3 <= count ascii_upper (lit "AAA111###X") /\
  3 <= count ascii_digit (lit "AAA111###X") /\
  1 <= count special (lit "AAA111###X").
Proof.
  destruct (proj1 (@validate_password_valid_iff unicode14 (lit "AAA111###X"))
              (ex_intro _ MSG_OK eq_refl)) as (H0 & _ & H1 & H2 & H3).
  repeat split; assumption.
Defined.

Lemma verdict_invariant_witness :
  exists v reason,
    validate_password (PyStr (lit "aaa111###x")) = Ok (v, reason) /\
    (v = true <-> reason = MSG_OK) /\
    (v = false ->
     reason = MSG_SHORT_OR_CHARSET \/ reason = MSG_CHARSET \/
     reason = MSG_UPPER \/ reason = MSG_DIGITS \/ reason = MSG_SPECIAL).
Proof. exact (@verdict_invariant unicode14 (lit "aaa111###x")). Defined.

Lemma validate_password_never_raises_witness :
  exists v reason, validate_password (PyInt 7) = Ok (v, reason).
Proof.
  exact (proj1 (proj2 (@validate_password_never_raises unicode14)) (PyInt 7)).
Defined.

(** * Further properties of the script *)

(** ** [str.strip] *)

Section StripFacts.

Context {U : UnicodeData}.

Lemma lstrip_spaces ws s :
  forallb isspace ws = true -> lstrip (ws ++ s) = lstrip s.
Proof.
  induction ws as [|a ws IH]; cbn; [reflexivity|].
  intros H. apply andb_true_iff in H. destruct H as [Ha Hws].
  rewrite Ha. now apply IH.
Qed.

Lemma lstrip_nil_iff s : lstrip s = [] <-> forallb isspace s = true.
Proof.
  induction s as [|a s IH]; cbn; [tauto|].
  destruct (isspace a); cbn; [exact IH|]. split; discriminate.
Qed.

Lemma lstrip_head s c tl : lstrip s = c :: tl -> isspace c = false.
Proof.
  induction s as [|a s IH]; cbn; [discriminate|].
  destruct (isspace a) eqn:Ha; [exact IH|]. now intros [= <- _].
Qed.

Lemma lstrip_fixed c tl : isspace c = false -> lstrip (c :: tl) = c :: tl.
Proof. intros H. cbn. now rewrite H. Qed.

Lemma lstrip_idempotent s : lstrip (lstrip s) = lstrip s.
Proof.
  destruct (lstrip s) as [|c tl] eqn:E; [reflexivity|].
  apply lstrip_fixed. exact (lstrip_head _ E).
Qed.

Lemma lstrip_app s t : lstrip s <> [] -> lstrip (s ++ t) = lstrip s ++ t.
Proof.
  induction s as [|a s IH]; cbn; [congruence|].
  destruct (isspace a); [exact IH|reflexivity].
Qed.

(** The whitespace [lstrip] removes. *)
Lemma lstrip_split s :
  exists ws, forallb isspace ws = true /\ s = ws ++ lstrip s.
Proof.
  induction s as [|a s IH]; cbn; [now exists []|].
  destruct (isspace a) eqn:Ha; [|now exists []].
  destruct IH as (ws & Hws & E). exists (a :: ws). cbn.
  rewrite Ha, Hws. split; [reflexivity|]. now rewrite <- E.
Qed.

Lemma forallb_rev (f : char -> bool) (s : str) :
  forallb f (rev s) = forallb f s.
Proof.
  induction s as [|a s IH]; cbn; [reflexivity|].
  rewrite forallb_app, IH. cbn. rewrite andb_true_r. apply andb_comm.
Qed.

Lemma rstrip_spaces s ws :
  forallb isspace ws = true -> rstrip (s ++ ws) = rstrip s.
Proof.
  intros H. unfold rstrip. rewrite rev_app_distr, lstrip_spaces; [reflexivity|].
  now rewrite forallb_rev.
Qed.

Lemma rstrip_nil_iff s : rstrip s = [] <-> forallb isspace s = true.
Proof.
  unfold rstrip. rewrite <- (forallb_rev isspace s), <- lstrip_nil_iff.
  split; intros H.
  - apply (f_equal (@rev char)) in H. now rewrite rev_involutive in H.
  - now rewrite H.
Qed.

Lemma rstrip_cons a s : rstrip s <> [] -> rstrip (a :: s) = a :: rstrip s.
Proof.
  unfold rstrip. intros H. cbn [rev]. rewrite lstrip_app.
  - now rewrite rev_app_distr.
  - intros E. apply H. now rewrite E.
Qed.

Lemma rstrip_cons_nonspace c s :
  isspace c = false -> rstrip (c :: s) = c :: rstrip s.
Proof.
  intros Hc. destruct (rstrip s) as [|b t] eqn:E.
  - apply rstrip_nil_iff in E. unfold rstrip. cbn [rev].
    rewrite lstrip_spaces by (now rewrite forallb_rev). cbn. now rewrite Hc.
  - rewrite <- E. apply rstrip_cons. congruence.
Qed.

(** [rstrip] reaches past a character that is not whitespace only from the
    right. *)
Lemma rstrip_after k c t :
  isspace c = false -> rstrip (k ++ c :: t) = k ++ c :: rstrip t.
Proof.
  intros Hc. induction k as [|a k IH]; cbn [app].
  - now apply rstrip_cons_nonspace.
  - rewrite rstrip_cons; rewrite IH; [reflexivity|]. now destruct k.
Qed.

Lemma rstrip_idempotent s : rstrip (rstrip s) = rstrip s.
Proof.
  unfold rstrip. now rewrite rev_involutive, lstrip_idempotent.
Qed.

(** The whitespace [rstrip] removes. *)
Lemma rstrip_split s :
  exists ws, forallb isspace ws = true /\ s = rstrip s ++ ws.
Proof.
  destruct (lstrip_split (rev s)) as (ws & Hws & E).
  exists (rev ws). rewrite forallb_rev. split; [exact Hws|].
  unfold rstrip. rewrite <- rev_app_distr, <- E. now rewrite rev_involutive.
Qed.

Lemma rstrip_last s : rstrip s <> [] ->
  exists t c, rstrip s = t ++ [c] /\ isspace c = false.
Proof.
  unfold rstrip. destruct (lstrip (rev s)) as [|c tl] eqn:E; [cbn; congruence|].
  intros _. exists (rev tl), c. split; [reflexivity|exact (lstrip_head _ E)].
Qed.

Lemma rstrip_keeps_head c tl s :
  lstrip s = c :: tl -> exists tl', rstrip (lstrip s) = c :: tl'.
Proof.
  intros E. rewrite E. rewrite rstrip_cons_nonspace by exact (lstrip_head _ E).
  now eexists.
Qed.

Lemma strip_idempotent s : strip (strip s) = strip s.
Proof.
  unfold strip. destruct (lstrip s) as [|c tl] eqn:E; [reflexivity|].
  pose proof (lstrip_head _ E) as Hc.
  rewrite rstrip_cons_nonspace by exact Hc.
  rewrite lstrip_fixed by exact Hc.
  rewrite <- rstrip_cons_nonspace by exact Hc. apply rstrip_idempotent.
Qed.

Lemma strip_spaces ws1 s ws2 :
  forallb isspace ws1 = true -> forallb isspace ws2 = true ->
  strip (ws1 ++ s ++ ws2) = strip s.
Proof.
  intros H1 H2. unfold strip. rewrite lstrip_spaces by exact H1.
  destruct (lstrip s) as [|c tl] eqn:E.
  - apply lstrip_nil_iff in E.
    assert (Hall : forallb isspace (s ++ ws2) = true)
      by (now rewrite forallb_app, E, H2).
    apply lstrip_nil_iff in Hall. now rewrite Hall.
  - rewrite lstrip_app by congruence. rewrite E. now apply rstrip_spaces.
Qed.

Lemma strip_rstrip s : strip (rstrip s) = strip s.
Proof.
  destruct (rstrip_split s) as (ws & Hws & E).
  rewrite E at 2. symmetry.
  exact (strip_spaces [] (rstrip s) ws eq_refl Hws).
Qed.

(** What [strip] does: it removes a run of whitespace at each end and
    leaves a text that neither begins nor ends with whitespace. *)
Lemma strip_split s :
  exists ws1 ws2,
    forallb isspace ws1 = true /\ forallb isspace ws2 = true /\
    s = ws1 ++ strip s ++ ws2.
Proof.
  destruct (lstrip_split s) as (ws1 & H1 & E1).
  destruct (rstrip_split (lstrip s)) as (ws2 & H2 & E2).
  exists ws1, ws2. split; [exact H1|]. split; [exact H2|].
  unfold strip. now rewrite <- E2.
Qed.

Lemma strip_nonspace s :
  forallb (fun c => negb (isspace c)) s = true -> strip s = s.
Proof.
  intros H. unfold strip.
  assert (Hr : rstrip s = s).
  { induction s as [|c s IH]; [reflexivity|]. cbn in H.
    apply andb_true_iff in H. destruct H as [Hc Hs].
    rewrite rstrip_cons_nonspace by (now destruct (isspace c)).
    now rewrite IH. }
  destruct s as [|c s]; [reflexivity|]. cbn in H.
  apply andb_true_iff in H. destruct H as [Hc _].
  rewrite lstrip_fixed by (now destruct (isspace c)). exact Hr.
Qed.

End StripFacts.

(** ** [parse_line] *)

Section ParseLineFacts.

Context {U : UnicodeData}.

Lemma colon_not_space : isspace (ord ":") = false.
Proof. rewrite isspace_ascii; reflexivity. Qed.

Lemma newline_is_space : isspace NEWLINE = true.
Proof. rewrite isspace_ascii; reflexivity. Qed.

Lemma space_is_space : isspace (ord " ") = true.
Proof. rewrite isspace_ascii; reflexivity. Qed.

Lemma split1_at_first sep k v :
  ~ In sep k -> split1 [sep] (k ++ sep :: v) = [k; v].
Proof.
  induction k as [|c k IH]; intros Hk; cbn [app split1 startswith length skipn].
  - now rewrite N.eqb_refl.
  - destruct (N.eqb_spec c sep) as [->|Hne]; [exfalso; apply Hk; now left|].
    cbn [andb]. rewrite IH; [reflexivity|]. intros H. apply Hk. now right.
Qed.

Lemma str_in_char_false sep s : ~ In sep s -> str_in [sep] s = false.
Proof.
  intros H. destruct (str_in [sep] s) eqn:E; [|reflexivity].
  now apply str_in_char in E.
Qed.

Lemma strip_keyed pad key value :
  forallb isspace pad = true -> plain_key key ->
  strip (pad ++ key ++ ord ":" :: value) = key ++ ord ":" :: rstrip value.
Proof.
  intros Hpad [_ Hhead]. unfold strip. rewrite lstrip_spaces by exact Hpad.
  assert (E : lstrip (key ++ ord ":" :: value) = key ++ ord ":" :: value).
  { destruct key as [|c key]; cbn [app].
    - apply lstrip_fixed, colon_not_space.
    - apply lstrip_fixed. tauto. }
  rewrite E. apply rstrip_after, colon_not_space.
Qed.

Lemma parse_line_of_keyed pad key value :
  forallb isspace pad = true ->
  plain_key key ->
  parse_line (pad ++ key ++ ord ":" :: value) = Ok (Some (strip value)).
Proof.
  intros Hpad Hkey. unfold parse_line. rewrite (strip_keyed _ _ Hpad Hkey).
  destruct Hkey as [Hcolon Hhead].
  assert (Hstart : (match key ++ ord ":" :: rstrip value with
                    | [] => true | _ :: _ => false end)
                   || startswith (key ++ ord ":" :: rstrip value) (lit "#")
                   = false).
  { destruct key as [|c key]; cbn; [reflexivity|].
    destruct (N.eqb_spec c 35) as [->|_]; [|reflexivity].
    exfalso. now apply (proj2 Hhead). }
  rewrite Hstart. change (lit ":") with [ord ":"].
  assert (Hin : In (ord ":") (key ++ ord ":" :: rstrip value))
    by (apply in_or_app; right; now left).
  apply str_in_char in Hin. rewrite Hin, split1_at_first by exact Hcolon.
  now rewrite strip_rstrip.
Qed.

Lemma strip_blank ws : forallb isspace ws = true -> strip ws = [].
Proof.
  intros H. unfold strip. apply lstrip_nil_iff in H. now rewrite H.
Qed.

(** X1: a keyed line ["KEY: value"], whatever whitespace precedes the key,
    yields the value stripped of surrounding whitespace, provided the key
    has no [':'] and does not begin with whitespace or ['#']; the text
    after the first [':'] is kept whole, further colons included, and a
    blank value yields the empty password, not [None]. *)
Theorem parse_line_keyed_value (pad key value : str) :
  forallb isspace pad = true ->
  plain_key key ->
  parse_line (pad ++ key ++ ord ":" :: value) = Ok (Some (strip value)) /\
  (forall more, parse_line (pad ++ key ++ ord ":" :: value ++ ord ":" :: more)
                = Ok (Some (strip (value ++ ord ":" :: more)))) /\
  (forallb isspace value = true ->
   parse_line (pad ++ key ++ ord ":" :: value) = Ok (Some [])).
Proof.
  intros Hpad Hkey. split; [now apply parse_line_of_keyed|]. split.
  - intros more. now apply parse_line_of_keyed.
  - intros Hblank. rewrite parse_line_of_keyed by assumption.
    now rewrite strip_blank.
Qed.

(** X2: [parse_line] never raises, and a password it returns has no
    whitespace left to strip; it is empty only when it comes from a keyed
    line. *)
Theorem parse_line_returns_stripped (line : str) :
  exists o,
    parse_line line = Ok o /\
    forall pw, o = Some pw ->
      strip pw = pw /\ (pw = [] -> In (ord ":") (strip line)).
Proof.
  unfold parse_line.
  destruct (strip line) as [|c tl] eqn:E.
  { exists None. split; [reflexivity|discriminate]. }
  cbn [orb]. destruct (startswith (c :: tl) (lit "#")).
  { exists None. split; [reflexivity|discriminate]. }
  destruct (str_in (lit ":") (c :: tl)) eqn:Hin.
  - pose proof Hin as Hcolon. apply str_in_char in Hcolon.
    destruct (split1_char _ _ Hcolon) as (k & v & _ & _ & Esplit).
    change (lit ":") with [ord ":"]. rewrite Esplit.
    exists (Some (strip v)). split; [reflexivity|].
    intros pw [= <-]. split; [apply strip_idempotent|]. intros _. exact Hcolon.
  - exists (Some (c :: tl)). split; [reflexivity|].
    intros pw [= <-]. split; [|discriminate].
    rewrite <- E. apply strip_idempotent.
Qed.

Lemma allowed_not_space c : allowed c = true -> isspace c = false.
Proof.
  intros H. apply allowed_is_ascii in H. rewrite isspace_ascii by lia.
  unfold ascii_space, in_range.
  destruct (N.leb_spec c 13); [lia|]. destruct (N.leb_spec c 32); [lia|].
  now rewrite !andb_false_r.
Qed.

Lemma allowed_not_colon c : allowed c = true -> c <> ord ":".
Proof. intros H ->. discriminate H. Qed.

Lemma strip_allowed s : forallb allowed s = true -> strip s = s.
Proof.
  intros H. apply strip_nonspace. rewrite forallb_forall in *.
  intros c Hc. now rewrite allowed_not_space by (now apply H).
Qed.

(** X3: a password the validator accepts survives the loader's parsing.
    Written after a key it is extracted unchanged; written alone on its
    line it is extracted unchanged unless it begins with ['#'], in which
    case the line is dropped. *)
Theorem parse_line_valid_password (pw : str) :
  validate_password (PyStr pw) = Ok (true, MSG_OK) ->
  parse_line (lit "PASSWORD: " ++ pw ++ [NEWLINE]) = Ok (Some pw) /\
  parse_line (pw ++ [NEWLINE])
  = Ok (if startswith pw (lit "#") then None else Some pw).
Proof.
  rewrite validate_password_spec. intros Hv.
  assert (Hall : forallb allowed pw = true).
  { destruct (first_failure_cases pw) as
      [(H1 & H2 & E)|[(H1 & H2 & E)|[(H1 & H2 & E)|[(H1 & H2 & H3 & E)|
      [(H1 & H2 & H3 & H4 & E)|(H1 & H2 & H3 & H4 & E)]]]]];
      rewrite E in Hv; try discriminate Hv.
    apply andb_true_iff in H1. tauto. }
  pose proof (strip_allowed _ Hall) as Hstrip.
  assert (Hnl : forallb isspace [NEWLINE] = true)
    by (cbn [forallb]; now rewrite newline_is_space).
  split.
  - change (lit "PASSWORD: " ++ pw ++ [NEWLINE])
      with ([] ++ lit "PASSWORD" ++ ord ":" :: ([ord " "] ++ pw ++ [NEWLINE])).
    rewrite parse_line_of_keyed.
    + rewrite strip_spaces; [now rewrite Hstrip| |exact Hnl].
      cbn [forallb]. now rewrite space_is_space.
    + reflexivity.
    + split.
      * cbn. intuition discriminate.
      * cbn. split; [|discriminate]. rewrite isspace_ascii; reflexivity.
  - unfold parse_line.
    replace (strip (pw ++ [NEWLINE])) with pw
      by (symmetry; rewrite <- Hstrip at 2;
          exact (strip_spaces [] pw [NEWLINE] eq_refl Hnl)).
    destruct pw as [|c tl]; [discriminate Hv|]. cbn [orb].
    destruct (startswith (c :: tl) (lit "#")); [reflexivity|].
    change (lit ":") with [ord ":"]. rewrite str_in_char_false; [reflexivity|].
    intros Hin. rewrite forallb_forall in Hall.
    exact (allowed_not_colon (Hall _ Hin) eq_refl).
Qed.

End ParseLineFacts.

(** ** [load_and_validate] *)

Section LoadFacts.

Context {U : UnicodeData}.

Lemma load_loop_entries raws :
  forall i out, load_loop raws i out = Ok (out ++ entries raws i).
Proof.
  induction raws as [|raw more IH]; intros i out; cbn [load_loop entries].
  - now rewrite app_nil_r.
  - destruct (parse_line_never_raises raw) as [[pw|] ->]; cbn [bind].
    + rewrite validate_password_spec. cbn [bind]. rewrite IH.
      now rewrite <- app_assoc.
    + apply IH.
Qed.

Lemma load_and_validate_entries_eq lines :
  load_and_validate (Lines lines) = Ok (entries lines 1).
Proof. unfold load_and_validate. now rewrite load_loop_entries. Qed.

Lemma entries_app l1 l2 i :
  entries (l1 ++ l2) i = entries l1 i ++ entries l2 (i + length l1).
Proof.
  revert i. induction l1 as [|raw more IH]; intros i; cbn [app entries length].
  - now rewrite Nat.add_0_r.
  - rewrite IH, <- app_assoc. do 3 f_equal. lia.
Qed.

Lemma entries_shift l i d :
  entries l (i + d) = map (renumber d) (entries l i).
Proof.
  revert i. induction l as [|raw more IH]; intros i; cbn [entries];
    [reflexivity|].
  rewrite map_app. change (S (i + d)) with (S i + d). rewrite IH. f_equal.
  destruct (parse_line raw) as [[pw|]|e]; reflexivity.
Qed.

Lemma entries_bounds l i :
  Forall (fun r => i <= line_no r < i + length l) (entries l i).
Proof.
  revert i. induction l as [|raw more IH]; intros i; cbn [entries length].
  - constructor.
  - apply Forall_app. split.
    + destruct (parse_line raw) as [[pw|]|e]; repeat constructor; cbn; lia.
    + eapply Forall_impl; [|apply IH]. cbn. intros r Hr. lia.
Qed.

Lemma entries_length l i : length (entries l i) <= length l.
Proof.
  revert i. induction l as [|raw more IH]; intros i; cbn [entries length];
    [lia|].
  rewrite length_app. specialize (IH (S i)).
  destruct (parse_line raw) as [[pw|]|e]; cbn [length]; lia.
Qed.

Lemma entries_sorted l i : StronglySorted lt (map line_no (entries l i)).
Proof.
  revert i. induction l as [|raw more IH]; intros i; cbn [entries].
  - constructor.
  - destruct (parse_line raw) as [[pw|]|e]; cbn [app map]; try apply IH.
    constructor; [apply IH|]. cbn [line_no].
    apply Forall_map. eapply Forall_impl; [|apply entries_bounds].
    cbn. intros r Hr. lia.
Qed.

(** X4: [load_and_validate] raises exactly when the file cannot be read:
    the exception of [open] when [open] fails, and [UnicodeDecodeError]
    when the loop meets bytes that are not UTF-8, whatever lines it read
    before them.  On a file that is all UTF-8 it returns at most one entry
    per line, in the order of the file, with strictly increasing line
    numbers between 1 and the number of lines. *)
Theorem load_and_validate_ordered (f : file_read) :
  match f with
  | CannotOpen e => load_and_validate f = Raise e
  | CannotDecode _ => load_and_validate f = Raise UnicodeDecodeError
  | Lines lines =>
      exists out,
        load_and_validate f = Ok out /\
        length out <= length lines /\
        StronglySorted lt (map line_no out) /\
        Forall (fun r => 1 <= line_no r <= length lines) out
  end.
Proof.
  destruct f as [e|lines|lines]; [reflexivity| |].
  - exists (entries lines 1). split; [apply load_and_validate_entries_eq|].
    split; [apply entries_length|]. split; [apply entries_sorted|].
    eapply Forall_impl; [|apply entries_bounds]. cbn. intros r Hr. lia.
  - cbn [load_and_validate]. now rewrite load_loop_entries.
Qed.

(** X5: the entries are exactly the lines [parse_line] keeps: an entry with
    line number [n], password [pw] and verdict [(v, reason)] is returned if
    and only if the [n]-th line parses to [pw] and [validate_password]
    returns [(v, reason)] on it. *)
Theorem load_and_validate_complete (lines : list str) (r : Result) :
  (exists out, load_and_validate (Lines lines) = Ok out /\ In r out) <->
  (exists before line after,
     lines = before ++ line :: after /\
     line_no r = S (length before) /\
     parse_line line = Ok (Some (password r)) /\
     validate_password (PyStr (password r)) = Ok (valid r, message r)).
Proof.
  split.
  - intros (out & Hload & Hin).
    destruct (load_and_validate_entries _ Hload r Hin)
      as (raw & Hnth & Hpos & Hparse & Hval).
    apply nth_error_split in Hnth. destruct Hnth as (before & after & -> & Hlen).
    exists before, raw, after. repeat split; auto. lia.
  - intros (before & line & after & -> & Hno & Hparse & Hval).
    exists (entries (before ++ line :: after) 1).
    split; [apply load_and_validate_entries_eq|].
    rewrite entries_app. apply in_or_app. right. cbn [entries].
    rewrite Hparse. left. rewrite validate_password_spec in Hval.
    injection Hval as Hval. rewrite Hval. cbn [fst snd].
    destruct r as [n pw v m]. cbn in *. f_equal. lia.
Qed.

(** X6: the entries for a sequence of lines followed by another are the
    entries for the first followed by the entries for the second, their
    line numbers moved up by the number of lines of the first: an entry
    depends on its own line and on the number of lines before it, not on
    what those lines hold. *)
Theorem load_and_validate_app (l1 l2 : list str) (r1 r2 : list Result) :
  load_and_validate (Lines l1) = Ok r1 ->
  load_and_validate (Lines l2) = Ok r2 ->
  load_and_validate (Lines (l1 ++ l2))
  = Ok (r1 ++ map (renumber (length l1)) r2).
Proof.
  rewrite !load_and_validate_entries_eq. intros [= <-] [= <-].
  now rewrite entries_app, entries_shift.
Qed.

(** X7: a blank line leaves no entry, but a keyed line with a blank value
    does: the empty password is validated and reported as too short. *)
Theorem load_and_validate_blank_value (key ws : str) :
  plain_key key ->
  forallb isspace ws = true ->
  load_and_validate (Lines [ws]) = Ok [] /\
  load_and_validate (Lines [key ++ ord ":" :: ws])
  = Ok [mkResult 1 [] false MSG_SHORT_OR_CHARSET].
Proof.
  intros Hkey Hws. rewrite !load_and_validate_entries_eq. cbn [entries].
  split.
  - rewrite parse_line_skip; [reflexivity|]. left. now apply strip_blank.
  - pose proof (@parse_line_of_keyed U [] key ws eq_refl Hkey) as E.
    cbn [app] in E. rewrite E. now rewrite strip_blank.
Qed.

(** C10: [parse_line] returns [None] for every line that is empty
    after stripping or whose stripped form begins with ['#']; so a line
    that is itself a password beginning with ['#'] is skipped and gets no
    entry from the loader.  A keyed line is not skipped on account of its
    value: the password of ["KEY: #..."] begins with ['#'] and gets an
    entry holding the verdict of the validator.  A line that is kept and
    contains [':'] yields the stripped text after the first [':']. *)
Theorem parse_line_skips_and_splits (line : str) :
  (strip line = [] \/ (exists tl, strip line = ord "#" :: tl) ->
   parse_line line = Ok None) /\
  (forall pw, parse_line (ord "#" :: pw) = Ok None) /\
  ((exists tl, strip line = ord "#" :: tl) ->
   forall before after out,
     load_and_validate (Lines (before ++ line :: after)) = Ok out ->
     forall r, In r out -> line_no r <> S (length before)) /\
  (strip line <> [] ->
   (forall tl, strip line <> ord "#" :: tl) ->
   In (ord ":") (strip line) ->
   exists k v,
     strip line = k ++ ord ":" :: v /\ ~ In (ord ":") k /\
     parse_line line = Ok (Some (strip v))) /\
  (forall key value tl,
     plain_key key ->
     line = key ++ ord ":" :: value ->
     strip value = ord "#" :: tl ->
     parse_line line = Ok (Some (ord "#" :: tl)) /\
     forall before after,
       exists out v reason,
         load_and_validate (Lines (before ++ line :: after)) = Ok out /\
         validate_password (PyStr (ord "#" :: tl)) = Ok (v, reason) /\
         In (mkResult (S (length before)) (ord "#" :: tl) v reason) out).
Proof.
  split; [apply parse_line_skip|]. split; [|split; [|split]].
  - intros pw. apply parse_line_skip. right.
    destruct (@strip_keeps_head U (ord "#") pw hash_not_space) as [tl' E].
    now exists tl'.
  - intros Hhash before after out H r Hr Hno.
    destruct (load_and_validate_entries _ H r Hr) as (raw & Hnth & _ & Hp & _).
    rewrite Hno in Hnth. cbn [Nat.sub] in Hnth.
    rewrite Nat.sub_0_r, nth_error_app2, Nat.sub_diag in Hnth by lia.
    cbn in Hnth. injection Hnth as <-.
    rewrite parse_line_skip in Hp by (now right). discriminate Hp.
  - intros Hne Hnohash Hcolon. unfold parse_line.
    destruct (strip line) as [|c tl] eqn:E; [congruence|].
    cbn [orb startswith lit map list_ascii_of_string].
    destruct (N.eqb_spec c (ord "#")) as [->|Hc];
      [exfalso; apply (Hnohash tl); reflexivity|].
    cbn [andb]. pose proof Hcolon as Hin. apply str_in_char in Hin.
    change (lit ":") with [ord ":"]. rewrite Hin.
    destruct (split1_char _ _ Hcolon) as (k & v & Ek & Hk & ->).
    now exists k, v.
  - intros key value tl Hkey -> Hvalue.
    pose proof (@parse_line_of_keyed U [] key value eq_refl Hkey) as Hparse.
    cbn [app] in Hparse. rewrite Hvalue in Hparse.
    split; [exact Hparse|]. intros before after.
    exists (entries (before ++ (key ++ ord ":" :: value) :: after) 1),
      (fst (first_failure (ord "#" :: tl))),
      (snd (first_failure (ord "#" :: tl))).
    split; [apply load_and_validate_entries_eq|]. split.
    + rewrite validate_password_spec. now destruct (first_failure _).
    + rewrite entries_app. apply in_or_app. right. cbn [entries].
      rewrite Hparse. left. f_equal; lia.
Qed.

End LoadFacts.

(** C10 does not extend to keyed lines: the password of the line
    [PASSWORD: #AAA111bcd] begins with ['#'], and the line is not taken
    for a comment: [parse_line] returns the password, and the loader has
    the validator judge it and reports it valid. *)
Lemma keyed_hash_password_reaches_validator :
  parse_line (lit "PASSWORD: #AAA111bcd" ++ [NEWLINE])
  = Ok (Some (ord "#" :: lit "AAA111bcd")) /\
  parse_line (lit "PASSWORD: #AAA111bcd" ++ [NEWLINE]) <> Ok None /\
  load_and_validate (Lines [lit "PASSWORD: #AAA111bcd" ++ [NEWLINE]])
  = Ok [mkResult 1 (ord "#" :: lit "AAA111bcd") true MSG_OK].
Proof. split; [reflexivity|]. split; [discriminate|reflexivity]. Qed.

(** ** The composite pattern *)

Section CompositeFacts.

Context {U : UnicodeData}.

Lemma run_ASSERT_inv fuel r pos rest n :
  In n (run fuel (ASSERT r) pos rest) ->
  n = 0 /\ exists m, In m (run fuel r pos rest).
Proof.
  cbn [run]. destruct (run fuel r pos rest) as [|m l]; [contradiction|].
  intros [<-|[]]. split; [reflexivity|]. exists m. now left.
Qed.

Lemma run_AT_END_inv fuel pos rest n :
  In n (run fuel AT_END pos rest) ->
  n = 0 /\ (rest = [] \/ rest = [NEWLINE]).
Proof.
  cbn [run]. destruct rest as [|c [|d tl]]; cbn.
  - intros [<-|[]]. auto.
  - destruct (N.eqb_spec c NEWLINE) as [->|_]; [|contradiction].
    intros [<-|[]]. auto.
  - contradiction.
Qed.

Lemma one_char_inv (p : char -> bool) rest n :
  In n (one_char p rest) ->
  n = 1 /\ exists c tl, rest = c :: tl /\ p c = true.
Proof.
  destruct rest as [|c tl]; cbn; [contradiction|].
  destruct (p c) eqn:Hc; [|contradiction].
  intros [<-|[]]. split; [reflexivity|]. now exists c, tl.
Qed.

Lemma count_app (p : char -> bool) s t :
  count p (s ++ t) = count p s + count p t.
Proof. unfold count. now rewrite filter_app, length_app. Qed.

(** A match of [.*[...]] ends on a character of the class. *)
Lemma run_until_class_inv fuel items pos rest n :
  In n (run fuel (STAR ANY @ IN items) pos rest) ->
  exists m c tl,
    n = S m /\ skipn m rest = c :: tl /\ in_cset items c = true.
Proof.
  intros H. apply run_CAT_In in H. destruct H as (a & b & _ & Hb & ->).
  apply one_char_inv in Hb. destruct Hb as (-> & c & tl & E & Hc).
  exists a, c, tl. split; [lia|]. auto.
Qed.

Lemma count_skipn_step (p : char -> bool) m (rest : str) c tl :
  skipn m rest = c :: tl -> p c = true ->
  S (count p (skipn (S m) rest)) <= count p rest.
Proof.
  intros E Hc. rewrite <- (firstn_skipn m rest) at 2. rewrite count_app, E.
  replace (skipn (S m) rest) with tl.
  - unfold count at 3. cbn [filter]. rewrite Hc. cbn [length].
    fold (count p tl). lia.
  - change (S m) with (1 + m). rewrite <- skipn_skipn, E. reflexivity.
Qed.

(** [(?:.*[...]){k}] matches only where [k] characters of the class are. *)
Lemma run_repeat_until_class_inv fuel items :
  forall loopfuel k pos rest n,
    In n (repeat_loop (run fuel (SUBPATTERN (STAR ANY @ IN items)))
            loopfuel k (Some k) pos rest) ->
    k <= count (in_cset items) rest.
Proof.
  induction loopfuel as [|loopfuel IH]; intros k pos rest n; [contradiction|].
  destruct k as [|k]; [lia|].
  cbn [repeat_loop room Nat.eqb andb pred option_map].
  rewrite app_nil_r, in_flat_map. intros (n1 & Hn1 & Hn).
  apply in_map_iff in Hn. destruct Hn as (n2 & _ & Hn2).
  apply IH in Hn2.
  change (run fuel (SUBPATTERN (STAR ANY @ IN items)))
    with (run fuel (STAR ANY @ IN items)) in Hn1.
  apply run_until_class_inv in Hn1.
  destruct Hn1 as (m & c & tl & -> & E & Hc).
  pose proof (count_skipn_step (in_cset items) m rest E Hc). lia.
Qed.

Lemma skipn_In (x : char) m (s : str) : In x (skipn m s) -> In x s.
Proof.
  intros H. rewrite <- (firstn_skipn m s). apply in_or_app. now right.
Qed.

(** What a full match of the composite pattern entails. *)
Lemma PASSWORD_REGEX_accepts_inv fuel s :
  10 + length s < fuel ->
  truthy (fullmatch_str fuel PASSWORD_REGEX s) = true ->
  charset_and_length_ok s = true /\
  3 <= count ascii_upper s /\ 3 <= count ascii_digit s /\
  1 <= count special s.
Proof.
  intros Hf H. apply truthy_fullmatch in H. unfold PASSWORD_REGEX in H.
  apply run_CAT_In in H. destruct H as (n0 & n & H0 & H & En).
  cbn [run Nat.eqb] in H0. destruct H0 as [<-|[]]. cbn [Nat.add skipn] in H, En.
  apply run_CAT_In in H. destruct H as (a1 & n1 & A1 & H & ->).
  apply run_ASSERT_inv in A1. destruct A1 as (-> & m1 & A1).
  cbn [Nat.add skipn] in H, En.
  apply run_CAT_In in H. destruct H as (a2 & n2 & A2 & H & ->).
  apply run_ASSERT_inv in A2. destruct A2 as (-> & m2 & A2).
  cbn [Nat.add skipn] in H, En.
  apply run_CAT_In in H. destruct H as (a3 & n3 & A3 & H & ->).
  apply run_ASSERT_inv in A3. destruct A3 as (-> & m3 & A3).
  cbn [Nat.add skipn] in H, En.
  apply run_CAT_In in H. destruct H as (a4 & n4 & A4 & H & ->).
  apply run_ASSERT_inv in A4. destruct A4 as (-> & m4 & A4).
  cbn [Nat.add skipn] in H, En.
  (* .*$ reads the whole subject: it has no newline *)
  apply run_CAT_In in H. destruct H as (k & e & Hk & He & ->).
  apply run_AT_END_inv in He. destruct He as (-> & _).
  apply run_STAR_ANY_In in Hk; [|lia]. destruct Hk as [_ Hnl].
  replace k with (length s) in Hnl by lia. rewrite firstn_all in Hnl.
  (* the first lookahead reads the whole subject too *)
  apply run_CAT_In in A1. destruct A1 as (k1 & e1 & Hk1 & He1 & _).
  apply run_AT_END_inv in He1. destruct He1 as (_ & Hend).
  change (In k1 (repeat_loop (run fuel (IN ALLOWED)) fuel 10 None 0 s)) in Hk1.
  apply (@repeat_one_char_In (in_cset ALLOWED) _ (fun _ _ => eq_refl)) in Hk1;
    [|lia].
  destruct Hk1 as [[Hk10 Hk1] Hall].
  assert (Hskip : skipn k1 s = []).
  { destruct Hend as [E|E]; [exact E|exfalso].
    assert (Hin : In NEWLINE s) by (apply (skipn_In _ k1); rewrite E; now left).
    rewrite forallb_forall in Hnl. apply Hnl in Hin. discriminate Hin. }
  assert (Ek1 : k1 = length s).
  { apply (f_equal (@length char)) in Hskip. rewrite length_skipn in Hskip.
    cbn in Hskip. lia. }
  subst k1. rewrite firstn_all in Hall.
  rewrite (forallb_eq _ _ s in_cset_ALLOWED) in Hall.
  assert (Hcl : charset_and_length_ok s = true).
  { unfold charset_and_length_ok. rewrite Hall, andb_true_r.
    now apply Nat.leb_le. }
  split; [exact Hcl|].
  (* the counting lookaheads *)
  cbn [run] in A2, A3.
  apply run_repeat_until_class_inv in A2, A3.
  rewrite (count_ext _ _ s in_cset_UPPER) in A2.
  rewrite (count_ext _ _ s in_cset_DIGIT), (count_isdecimal_allowed _ Hall) in A3.
  split; [exact A2|]. split; [exact A3|].
  apply run_until_class_inv in A4. destruct A4 as (m & c & tl & _ & E & Hc).
  pose proof (count_skipn_step special m s E Hc). lia.
Qed.

(** X8: the composite pattern alone decides the policy: on every string,
    [PASSWORD_REGEX.fullmatch] returns a match exactly when the string has at
    least 10 characters, all of them allowed, with at least 3 uppercase
    letters, 3 digits and 1 special character; so it agrees with the verdict
    of the separate checks. *)
Theorem PASSWORD_REGEX_decides_policy (s : str) :
  ((exists m,
      re_fullmatch (budget (PyStr s)) PASSWORD_REGEX (PyStr s) = Ok (Some m)) <->
   (10 <= length s /\ (forall c, In c s -> allowed c = true) /\
    3 <= count ascii_upper s /\ 3 <= count ascii_digit s /\
    1 <= count special s)) /\
  ((exists m,
      re_fullmatch (budget (PyStr s)) PASSWORD_REGEX (PyStr s) = Ok (Some m)) <->
   validate_password (PyStr s) = Ok (true, MSG_OK)).
Proof.
  assert (Hmatch :
            (exists m, re_fullmatch (budget (PyStr s)) PASSWORD_REGEX (PyStr s)
                       = Ok (Some m)) <->
            truthy (fullmatch_str (budget (PyStr s)) PASSWORD_REGEX s) = true).
  { unfold re_fullmatch. cbn [subject bind].
    destruct (fullmatch_str (budget (PyStr s)) PASSWORD_REGEX s) as [m|]; cbn.
    - split; [reflexivity|]. intros _. now exists m.
    - split; [intros [m Hm]; discriminate Hm|discriminate]. }
  assert (Hpolicy :
            truthy (fullmatch_str (budget (PyStr s)) PASSWORD_REGEX s) = true <->
            charset_and_length_ok s = true /\
            3 <= count ascii_upper s /\ 3 <= count ascii_digit s /\
            1 <= count special s).
  { split.
    - apply PASSWORD_REGEX_accepts_inv. cbn [budget]. lia.
    - intros (Hcl & Hup & Hdi & Hsp).
      apply PASSWORD_REGEX_accepts; try assumption; [cbn [budget]; lia|].
      apply andb_true_iff in Hcl. destruct Hcl as [_ Hall].
      now rewrite (count_isdecimal_allowed _ Hall). }
  split.
  - rewrite Hmatch, Hpolicy, charset_and_length_ok_iff. tauto.
  - rewrite Hmatch, Hpolicy, validate_password_spec.
    destruct (first_failure_cases s) as
      [(H1 & H2 & E)|[(H1 & H2 & E)|[(H1 & H2 & E)|[(H1 & H2 & H3 & E)|
      [(H1 & H2 & H3 & H4 & E)|(H1 & H2 & H3 & H4 & E)]]]]]; rewrite E, H1.
    1-2: split; [intros [Hd _]; discriminate Hd|intros Hd; discriminate Hd].
    1-3: split; [intros; exfalso; lia|intros Hd; discriminate Hd].
    split; [reflexivity|tauto].
Qed.

Lemma count_Permutation (p : char -> bool) (s t : str) :
  Permutation s t -> count p s = count p t.
Proof.
  unfold count. induction 1; cbn; try congruence.
  - destruct (p x); cbn; congruence.
  - destruct (p x), (p y); reflexivity.
Qed.

Lemma forallb_Permutation (p : char -> bool) (s t : str) :
  Permutation s t -> forallb p s = forallb p t.
Proof.
  induction 1; cbn; try congruence.
  now rewrite !andb_assoc, (andb_comm (p y)).
Qed.

Lemma first_failure_Permutation s t :
  Permutation s t -> first_failure s = first_failure t.
Proof.
  intros H. unfold first_failure, charset_and_length_ok.
  rewrite (Permutation_length H), (forallb_Permutation allowed H).
  now rewrite !(count_Permutation _ H).
Qed.

(** X9: the verdict, reason included, depends only on which characters the
    password has and how many of each, not on their order; and a password
    the validator accepts stays accepted when allowed characters are added
    anywhere. *)
Theorem validate_password_order_blind (p q : str) :
  (Permutation p q ->
   validate_password (PyStr p) = validate_password (PyStr q)) /\
  (forall extra,
     validate_password (PyStr p) = Ok (true, MSG_OK) ->
     forallb allowed extra = true ->
     Permutation (p ++ extra) q ->
     validate_password (PyStr q) = Ok (true, MSG_OK)).
Proof.
  split.
  - intros H. rewrite !validate_password_spec. f_equal.
    now apply first_failure_Permutation.
  - intros extra Hp Hextra H. rewrite validate_password_spec in *.
    rewrite <- (first_failure_Permutation H).
    destruct (first_failure_cases p) as
      [(H1 & H2 & E)|[(H1 & H2 & E)|[(H1 & H2 & E)|[(H1 & H2 & H3 & E)|
      [(H1 & H2 & H3 & H4 & E)|(H1 & H2 & H3 & H4 & E)]]]]];
      rewrite E in Hp; try discriminate Hp.
    apply andb_true_iff in H1. destruct H1 as [Hlen Hall].
    apply Nat.leb_le in Hlen. unfold first_failure, charset_and_length_ok.
    rewrite forallb_app, Hall, Hextra, length_app, !count_app.
    replace (10 <=? length p + length extra) with true
      by (symmetry; apply Nat.leb_le; lia).
    cbn [andb negb].
    replace (count ascii_upper p + count ascii_upper extra <? 3) with false
      by (symmetry; apply Nat.ltb_ge; lia).
    replace (count ascii_digit p + count ascii_digit extra <? 3) with false
      by (symmetry; apply Nat.ltb_ge; lia).
    replace (count special p + count special extra <? 1) with false
      by (symmetry; apply Nat.ltb_ge; lia).
    reflexivity.
Qed.

End CompositeFacts.

(** ** The table *)

Lemma digits_length_ge fuel n acc : length acc <= length (digits fuel n acc).
Proof.
  revert n acc. induction fuel as [|fuel IH]; intros n acc; cbn [digits];
    [lia|].
  destruct (n <? 10); cbn [length]; [lia|].
  etransitivity; [|apply IH]. cbn [length]. lia.
Qed.

Lemma digits_length_gt fuel n acc :
  S (length acc) <= length (digits (S fuel) n acc).
Proof.
  cbn [digits]. destruct (n <? 10); cbn [length]; [lia|].
  etransitivity; [|apply digits_length_ge]. cbn [length]. lia.
Qed.

(** [str(n)] has at most three characters exactly when [n < 1000]. *)
Lemma str_of_int_length n :
  (n < 1000 -> length (str_of_int n) <= 3) /\
  (1000 <= n -> 4 <= length (str_of_int n)).
Proof.
  unfold str_of_int. split; intros Hn.
  - cbn [digits]. destruct (Nat.ltb_spec n 10); [cbn; lia|].
    destruct n as [|n]; [lia|]. cbn [digits].
    destruct (Nat.ltb_spec (S n / 10) 10); [cbn; lia|].
    destruct n as [|n]; [lia|]. cbn [digits].
    destruct (Nat.ltb_spec (S (S n) / 10 / 10) 10); [cbn; lia|].
    exfalso. rewrite Nat.Div0.div_div in *.
    assert (S (S n) / (10 * 10) < 10)
      by (apply Nat.Div0.div_lt_upper_bound; lia).
    lia.
  - cbn [digits]. destruct (Nat.ltb_spec n 10); [lia|].
    destruct n as [|n]; [lia|]. cbn [digits].
    assert (H10 : 100 <= S n / 10)
      by (apply Nat.div_le_lower_bound; lia).
    destruct (Nat.ltb_spec (S n / 10) 10); [lia|].
    destruct n as [|n]; [lia|]. cbn [digits].
    assert (H100 : 10 <= S (S n) / 10 / 10)
      by (apply Nat.div_le_lower_bound; lia).
    destruct (Nat.ltb_spec (S (S n) / 10 / 10) 10); [lia|].
    destruct n as [|n]; [lia|].
    etransitivity; [|apply digits_length_gt]. cbn [length]. lia.
Qed.

Lemma format_left_length w s : length (format_left w s) = Nat.max w (length s).
Proof. unfold format_left. rewrite length_app, repeat_length. lia. Qed.

Lemma format_right_length w s : length (format_right w s) = Nat.max w (length s).
Proof. unfold format_right. rewrite length_app, repeat_length. lia. Qed.

Lemma shown_length pw :
  length (shown pw) <= 40 /\ (40 < length pw -> length (shown pw) = 40).
Proof.
  unfold shown. destruct (Nat.ltb_spec 40 (length pw)); [|lia].
  rewrite length_app, length_firstn. change (length (text "...")) with 3. lia.
Qed.

(** X10: the password column of the table never overflows: the text shown
    has at most 40 characters, is the password itself exactly when the
    password has at most 40, and otherwise is its first 37 characters
    followed by three dots; padded, it always fills 40 columns. *)
Theorem shown_fits_column (pw : str) :
  length (shown pw) <= 40 /\
  (shown pw = pw <-> length pw <= 40) /\
  (40 < length pw -> shown pw = firstn 37 pw ++ lit "...") /\
  length (format_left 40 (shown pw)) = 40.
Proof.
  pose proof (shown_length pw) as Hlen.
  split; [tauto|]. split; [|split].
  - split.
    + intros E. destruct (Nat.le_gt_cases (length pw) 40) as [|Hgt]; [lia|].
      apply Hlen in Hgt. rewrite E in Hgt. lia.
    + intros H. unfold shown.
      now destruct (Nat.ltb_spec 40 (length pw)); [lia|].
  - intros H. unfold shown.
    now destruct (Nat.ltb_spec 40 (length pw)); [|lia].
  - rewrite format_left_length. lia.
Qed.

(** X11: the lines of the table line up with the header as long as line
    numbers have at most three digits: up to line 999 the message of an
    entry starts in column 58, like the header's, and from line 1000 on it
    starts further right. *)
Theorem rows_align_with_header (r : Result) :
  row r = row_lead r ++ text (message r) /\
  header = header_lead ++ text "Mensaje" /\
  length header_lead = 58 /\
  (line_no r < 1000 -> length (row_lead r) = 58) /\
  (1000 <= line_no r -> 58 < length (row_lead r)).
Proof.
  split; [reflexivity|]. split; [reflexivity|]. split; [reflexivity|].
  assert (Hlead : length (row_lead r)
                  = Nat.max 3 (length (str_of_int (line_no r))) + 55).
  { unfold row_lead. rewrite !length_app, format_right_length.
    rewrite format_left_length.
    pose proof (shown_length (password r)) as [Hshown _].
    change (length SEP) with 3.
    replace (length (format_center 6 (text (if valid r then "Sí" else "No"))))
      with 6 by (now destruct (valid r)).
    lia. }
  rewrite Hlead.
  destruct (str_of_int_length (line_no r)) as [Hsmall Hbig].
  split; intros H; [apply Hsmall in H|apply Hbig in H]; lia.
Qed.

(** ** [main] *)

Lemma str_eqb_eq a b : str_eqb a b = true <-> a = b.
Proof.
  revert b. induction a as [|x a IH]; intros [|y b]; cbn;
    try (split; [discriminate|discriminate]); [tauto|].
  rewrite andb_true_iff, N.eqb_eq, IH. split.
  - now intros [-> ->].
  - now intros [= -> ->].
Qed.

Lemma startswith_prefix s p :
  startswith s p = true <-> exists t, s = p ++ t.
Proof.
  revert s. induction p as [|c p IH]; intros s; cbn.
  - split; [intros _; now exists s|reflexivity].
  - destruct s as [|x s]; [split; [discriminate|intros [t Ht]; discriminate Ht]|].
    rewrite andb_true_iff, N.eqb_eq, IH. split.
    + intros [-> [t ->]]. now exists t.
    + intros [t [= -> ->]]. split; [reflexivity|now exists t].
Qed.

Lemma is_summary_not_export a : is_summary a = true -> is_export a = false.
Proof. unfold is_summary. rewrite str_eqb_eq. now intros ->. Qed.

Section MainFacts.

Context {U : UnicodeData}.

Context {E : Stdout}.

Variable columns : nat.
Variable format_pct : nat -> nat -> str.
Variable open_lines : str -> file_read.

(** ASCII text can always be printed. *)
Lemma ascii_encodable s :
  forallb (fun c => N.ltb c 128) s = true -> forallb can_encode s = true.
Proof.
  rewrite !forallb_forall. intros H c Hc. apply can_encode_ascii.
  apply N.ltb_lt. now apply H.
Qed.

Lemma encodable_print s :
  forallb can_encode (print s) = forallb can_encode s.
Proof.
  unfold print. rewrite forallb_app. cbn [forallb].
  rewrite (@can_encode_ascii E NEWLINE) by reflexivity. now rewrite !andb_true_r.
Qed.

Lemma encodable_prints texts :
  forallb can_encode (flat_map print texts)
  = forallb (forallb can_encode) texts.
Proof.
  induction texts as [|s more IH]; cbn [flat_map forallb]; [reflexivity|].
  now rewrite forallb_app, encodable_print, IH.
Qed.

(** When stdout can encode every text, every call of [print] returns. *)
Lemma print_all_done texts :
  forallb (forallb can_encode) texts = true ->
  print_all texts = (flat_map print texts, true).
Proof.
  induction texts as [|s more IH]; cbn [print_all flat_map forallb];
    [reflexivity|].
  intros H. apply andb_true_iff in H. destruct H as [Hs Hmore].
  now rewrite Hs, (IH Hmore).
Qed.

(** Otherwise a call raises, after the texts before it were written. *)
Lemma print_all_raises texts :
  forallb (forallb can_encode) texts = false ->
  exists out rest,
    print_all texts = (out, false) /\ flat_map print texts = out ++ rest.
Proof.
  induction texts as [|s more IH]; cbn [print_all flat_map forallb];
    [discriminate|].
  destruct (forallb can_encode s); cbn [andb].
  - intros H. destruct (IH H) as (out & rest & -> & Eq).
    exists (print s ++ out), rest. split; [reflexivity|].
    now rewrite Eq, app_assoc.
  - intros _. exists [], (print s ++ flat_map print more). auto.
Qed.


Lemma table_prints_text results :
  flat_map print (table_prints columns results) = print_table columns results.
Proof.
  unfold table_prints, print_table. cbn [app flat_map].
  rewrite flat_map_app. cbn [flat_map]. rewrite app_nil_r.
  do 3 f_equal. f_equal.
  induction results as [|r results IH]; cbn [map flat_map]; [reflexivity|].
  now rewrite IH.
Qed.

Lemma summary_prints_text results :
  flat_map print (summary_prints format_pct results)
  = print_summary format_pct results.
Proof.
  unfold summary_prints, print_summary. cbn [flat_map].
  rewrite app_nil_r. do 2 f_equal.
  now destruct (negb (length results =? 0)).
Qed.

(** The texts [main] prints for the entries [results], in order, and the
    whole of it as one text. *)
Lemma report_text results (with_summary : bool) :
  flat_map print
    (table_prints columns results
     ++ if with_summary then summary_prints format_pct results else [])
  = print_table columns results
    ++ if with_summary then print_summary format_pct results else [].
Proof.
  rewrite flat_map_app, table_prints_text. f_equal.
  destruct with_summary; [apply summary_prints_text|reflexivity].
Qed.

Lemma finish_ascii code s :
  forallb (fun c => N.ltb c 128) s = true ->
  finish code (print_all [s]) = Exit code (print s).
Proof.
  intros H. cbn [print_all]. rewrite (ascii_encodable _ H).
  unfold finish. cbn [fst snd]. now rewrite app_nil_r.
Qed.

(** The value of an [--export=] option is always there to be read. *)
Lemma export_value a :
  is_export a = true ->
  exists v, nth_error (split1 (text "=") a) 1 = Some v.
Proof.
  unfold is_export. rewrite startswith_prefix. intros [t ->].
  assert (Hin : In (ord "=") (text "--export=" ++ t)).
  { apply in_or_app. left. cbn. tauto. }
  change (text "=") with [ord "="].
  destruct (split1_char _ _ Hin) as (k & v & _ & _ & ->). now exists v.
Qed.

(** What the loop over [argv] leaves in its variables. *)
Lemma main_loop_spec argv :
  forall st,
    exists st',
      main_loop argv st = inr st' /\
      summary st' = summary st || existsb is_summary argv /\
      (no_path (path st) = false -> path st' = path st) /\
      (no_path (path st) = true ->
       match find names_file argv with
       | Some p => path st' = Some p
       | None => no_path (path st') = true
       end).
Proof.
  induction argv as [|arg more IH]; intros st; cbn [main_loop find existsb].
  - exists st. rewrite orb_false_r. auto.
  - unfold main_step, names_file. fold (is_export arg) (is_summary arg).
    destruct (is_export arg) eqn:Hex.
    + destruct (export_value _ Hex) as [v ->].
      destruct (is_summary arg) eqn:Hsum;
        [apply is_summary_not_export in Hsum; congruence|].
      cbn [negb andb orb].
      destruct (IH (mkArgs (path st) (summary st) (Some v)))
        as (st' & -> & Hs & Hkeep & Hfind).
      exists st'. auto.
    + destruct (is_summary arg) eqn:Hsum; cbn [negb andb orb].
      * destruct (IH (mkArgs (path st) true (export st)))
          as (st' & -> & Hs & Hkeep & Hfind).
        exists st'. cbn [summary path] in *. rewrite Hs, orb_true_r. auto.
      * destruct (no_path (path st)) eqn:Hno.
        -- destruct (IH (mkArgs (Some arg) (summary st) (export st)))
             as (st' & -> & Hs & Hkeep & Hfind).
           exists st'. cbn [summary path] in *.
           split; [reflexivity|]. split; [exact Hs|].
           split; [discriminate|]. intros _.
           destruct (no_path (Some arg)) eqn:Harg; cbn [negb].
           ++ now apply Hfind.
           ++ now apply Hkeep.
        -- destruct (IH st) as (st' & -> & Hs & Hkeep & Hfind).
           exists st'. split; [reflexivity|]. split; [exact Hs|].
           split; [intros _; now apply Hkeep|discriminate].
Qed.

Lemma main_loop_start argv :
  exists st,
    main_loop argv (mkArgs None false None) = inr st /\
    summary st = existsb is_summary argv /\
    match find names_file argv with
    | Some p => path st = Some p
    | None => no_path (path st) = true
    end.
Proof.
  destruct (main_loop_spec argv (mkArgs None false None))
    as (st & Hloop & Hs & _ & Hfind).
  exists st. split; [exact Hloop|]. split; [exact Hs|]. now apply Hfind.
Qed.

Lemma names_file_nonempty argv p :
  find names_file argv = Some p -> exists c tl, p = c :: tl.
Proof.
  intros H. apply find_some in H. destruct H as [_ H].
  unfold names_file in H. destruct p as [|c tl]; [|now exists c, tl].
  discriminate H.
Qed.

Lemma main_eq argv :
  main columns format_pct open_lines argv
  = main_does columns format_pct open_lines argv.
Proof.
  unfold main, main_does. destruct argv as [|a argv].
  { cbn [find]. apply finish_ascii. vm_compute. reflexivity. }
  destruct (main_loop_start (a :: argv)) as (st & -> & Hs & Hfind).
  destruct (find names_file (a :: argv)) as [p|] eqn:Efind.
  - destruct (names_file_nonempty _ Efind) as (c & tl & ->).
    rewrite Hfind, Hs. reflexivity.
  - destruct (path st) as [[|c tl]|]; try discriminate Hfind;
      apply finish_ascii; vm_compute; reflexivity.
Qed.

Lemma find_filter (f g : str -> bool) (l : list str) :
  (forall a, f a = true -> g a = true) ->
  find f (filter g l) = find f l.
Proof.
  intros H. induction l as [|a l IH]; cbn; [reflexivity|].
  destruct (g a) eqn:Hg; cbn.
  - now rewrite IH.
  - destruct (f a) eqn:Hf; [|exact IH]. apply H in Hf. congruence.
Qed.

Lemma existsb_filter (f g : str -> bool) (l : list str) :
  (forall a, f a = true -> g a = true) ->
  existsb f (filter g l) = existsb f l.
Proof.
  intros H. induction l as [|a l IH]; cbn; [reflexivity|].
  destruct (g a) eqn:Hg; cbn.
  - now rewrite IH.
  - destruct (f a) eqn:Hf; [|exact IH]. apply H in Hf. congruence.
Qed.

Lemma find_app_skip (f : str -> bool) (l1 l2 : list str) :
  find f (l1 ++ l2)
  = match find f l1 with Some p => Some p | None => find f l2 end.
Proof.
  induction l1 as [|a l1 IH]; cbn; [reflexivity|].
  now destruct (f a).
Qed.

Lemma load_and_validate_never_raises lines :
  exists results, load_and_validate (Lines lines) = Ok results.
Proof. apply load_loop_never_raises. Qed.

Lemma load_and_validate_cannot_decode lines :
  load_and_validate (CannotDecode lines) = Raise UnicodeDecodeError.
Proof.
  cbn [load_and_validate].
  now destruct (load_loop_never_raises lines 1 []) as [results ->].
Qed.

(** X12: [main] takes as the path the first argument that is not
    [--summary], does not begin with [--export=] and is not empty, whatever
    follows it, and returns 2 exactly when there is no such argument.  When
    the file can be read, what it prints is the table followed by the
    summary exactly when [--summary] occurs among the arguments: it
    returns 0 after printing all of it when stdout can encode all of it;
    otherwise [print] raises [UnicodeEncodeError] after part of it was
    written, which is the first rule of the table when stdout cannot
    encode the header. *)
Theorem main_opens_first_file (argv : list str) :
  ((exists out, main columns format_pct open_lines argv = Exit 2 out) <->
   find names_file argv = None) /\
  (forall p lines,
     find names_file argv = Some p ->
     open_lines p = Lines lines ->
     exists results,
       load_and_validate (Lines lines) = Ok results /\
       let report :=
         print_table columns results
         ++ if existsb is_summary argv
            then print_summary format_pct results else [] in
       (forallb can_encode report = true ->
        main columns format_pct open_lines argv = Exit 0 report) /\
       (forallb can_encode report = false ->
        exists out rest,
          main columns format_pct open_lines argv
          = Uncaught UnicodeEncodeError out /\
          report = out ++ rest) /\
       (forallb can_encode header = false ->
        main columns format_pct open_lines argv
        = Uncaught UnicodeEncodeError (print (repeat (ord "-") columns)))).
Proof.
  rewrite main_eq. unfold main_does. split.
  - destruct (find names_file argv) as [p|].
    + split; [|discriminate]. intros [out H]. exfalso.
      destruct (open_lines p) as [e|lines|lines].
      * discriminate H.
      * destruct (load_and_validate_never_raises lines) as [results Hload].
        rewrite Hload in H. unfold finish in H.
        destruct (snd (print_all _)); discriminate H.
      * rewrite load_and_validate_cannot_decode in H. discriminate H.
    + split; [reflexivity|]. intros _. now eexists.
  - intros p lines -> Hopen. rewrite Hopen.
    destruct (load_and_validate_never_raises lines) as [results Hload].
    exists results. rewrite Hload. split; [reflexivity|]. cbv zeta.
    rewrite <- report_text, encodable_prints. split; [|split].
    + intros Hall. rewrite (print_all_done _ Hall). reflexivity.
    + intros Hnot. destruct (print_all_raises _ Hnot) as (out & rest & -> & Eq).
      exists out, rest. split; [reflexivity|exact Eq].
    + intros Hhead. unfold table_prints. cbn [app print_all].
      rewrite (ascii_encodable (repeat (ord "-") columns)).
      * rewrite Hhead. unfold finish. cbn [fst snd].
        now rewrite app_nil_r.
      * rewrite forallb_forall. intros c Hc. apply repeat_spec in Hc.
        now subst c.
Qed.

(** X13: [--export=...] arguments are read and then ignored: dropping them
    changes nothing, unless nothing else was given, in which case [main]
    reports the missing path instead of the usage line. *)
Theorem main_ignores_export (argv : list str) :
  (filter (fun a => negb (is_export a)) argv <> [] ->
   main columns format_pct open_lines argv
   = main columns format_pct open_lines
       (filter (fun a => negb (is_export a)) argv)) /\
  (argv <> [] -> filter (fun a => negb (is_export a)) argv = [] ->
   main columns format_pct open_lines argv
   = Exit 2 (print (text "Debe indicar ruta al .txt"))).
Proof.
  assert (Hfind : find names_file (filter (fun a => negb (is_export a)) argv)
                  = find names_file argv).
  { apply find_filter. intros a. unfold names_file.
    now destruct (is_export a). }
  assert (Hsum : existsb is_summary (filter (fun a => negb (is_export a)) argv)
                 = existsb is_summary argv).
  { apply existsb_filter. intros a Ha.
    now rewrite (is_summary_not_export _ Ha). }
  rewrite !main_eq. unfold main_does. rewrite Hfind, Hsum. split.
  - intros Hrest.
    destruct (filter (fun a => negb (is_export a)) argv) as [|b rest] eqn:Eq;
      [congruence|].
    destruct argv as [|a argv]; [discriminate Eq|]. reflexivity.
  - intros Hargv Hrest. rewrite <- Hfind, Hrest. cbn [find].
    destruct argv as [|a argv]; [congruence|reflexivity].
Qed.


(** X15: [--summary] may stand anywhere among the arguments, and whatever
    follows the path, other than [--summary], is ignored. *)
Theorem main_argument_order (argv more : list str) :
  main columns format_pct open_lines (argv ++ text "--summary" :: more)
  = main columns format_pct open_lines (text "--summary" :: argv ++ more) /\
  (forall p,
     find names_file argv = Some p ->
     existsb is_summary more = false ->
     main columns format_pct open_lines (argv ++ more)
     = main columns format_pct open_lines argv).
Proof.
  rewrite !main_eq. unfold main_does. split.
  - rewrite find_app_skip. cbn [find]. rewrite find_app_skip.
    change (names_file (text "--summary")) with false. cbn iota.
    rewrite existsb_app. cbn [existsb].
    change (is_summary (text "--summary")) with true.
    rewrite existsb_app, orb_true_r. cbn [orb].
    destruct argv as [|a argv]; reflexivity.
  - intros p Hp Hmore. rewrite find_app_skip, Hp, existsb_app, Hmore.
    rewrite orb_false_r.
    destruct argv as [|a argv]; [discriminate Hp|reflexivity].
Qed.

End MainFacts.

(** ** [print_summary] *)

Section SummaryFacts.

Context {U : UnicodeData}.

Variable format_pct : nat -> nat -> str.

Lemma first_failure_meets_policy s : fst (first_failure s) = meets_policy s.
Proof.
  unfold meets_policy.
  destruct (first_failure_cases s) as
    [(H1 & H2 & E)|[(H1 & H2 & E)|[(H1 & H2 & E)|[(H1 & H2 & H3 & E)|
    [(H1 & H2 & H3 & H4 & E)|(H1 & H2 & H3 & H4 & E)]]]]]; rewrite E, H1;
    cbn [fst andb]; try reflexivity;
    destruct (Nat.leb_spec 3 (count ascii_upper s));
    destruct (Nat.leb_spec 3 (count ascii_digit s));
    destruct (Nat.leb_spec 1 (count special s));
    cbn [andb]; try reflexivity; lia.
Qed.

Lemma entries_passwords lines i :
  map password (entries lines i) = kept_passwords lines.
Proof.
  revert i. induction lines as [|raw more IH]; intros i;
    cbn [entries kept_passwords flat_map]; [reflexivity|].
  rewrite map_app. fold (kept_passwords more). rewrite IH. f_equal.
  now destruct (parse_line raw) as [[pw|]|e].
Qed.

Lemma entries_valid lines i :
  map valid (entries lines i) = map meets_policy (kept_passwords lines).
Proof.
  revert i. induction lines as [|raw more IH]; intros i;
    cbn [entries kept_passwords flat_map]; [reflexivity|].
  rewrite !map_app. fold (kept_passwords more). rewrite IH. f_equal.
  destruct (parse_line raw) as [[pw|]|e]; try reflexivity.
  cbn [map valid]. now rewrite first_failure_meets_policy.
Qed.

Lemma filter_length_map {A : Type} (f : A -> bool) (l : list A) :
  length (filter f l) = length (filter (fun b => b) (map f l)).
Proof.
  induction l as [|a l IH]; cbn; [reflexivity|].
  destruct (f a); cbn; now rewrite IH.
Qed.

(** X16: after loading a file, the summary counts the lines kept by
    [parse_line] and, among them, those whose password meets the policy;
    it prints "Sin casos" exactly when every line is blank or a comment. *)
Theorem print_summary_of_file (lines : list str) (results : list Result) :
  load_and_validate (Lines lines) = Ok results ->
  print_summary format_pct results
  = print (NEWLINE :: text "Resumen:")
    ++ print (text "--------")
    ++ match kept_passwords lines with
       | [] => print (text "Sin casos")
       | _ :: _ =>
           let total := length (kept_passwords lines) in
           let ok := length (filter meets_policy (kept_passwords lines)) in
           print (text "Válidas: " ++ str_of_int ok ++ text "/"
                  ++ str_of_int total ++ text " ("
                  ++ format_pct ok total ++ text "%)")
       end.
Proof.
  rewrite load_and_validate_entries_eq. intros [= <-]. unfold print_summary.
  rewrite (filter_length_map valid), entries_valid, <- filter_length_map.
  rewrite <- (length_map password (entries lines 1)), entries_passwords.
  do 2 f_equal. now destruct (kept_passwords lines).
Qed.

End SummaryFacts.

(** ** Instances of the further properties on concrete inputs *)

Lemma plain_key_PASSWORD : plain_key (lit "PASSWORD").
Proof.
  split.
  - cbn. intuition discriminate.
  - split; [reflexivity|discriminate].
Defined.

Lemma parse_line_keyed_value_witness :
  parse_line (lit "  PASSWORD: Ab:c " ++ [NEWLINE]) = Ok (Some (lit "Ab:c")).
Proof.
  exact (proj1 (@parse_line_keyed_value unicode14 (lit "  ") (lit "PASSWORD")
                  (lit " Ab:c " ++ [NEWLINE]) eq_refl plain_key_PASSWORD)).
Defined.

Lemma parse_line_returns_stripped_witness :
  exists o,
    parse_line (lit "  abc  ") = Ok o /\
    forall pw, o = Some pw ->
      strip pw = pw /\ (pw = [] -> In (ord ":") (strip (lit "  abc  "))).
Proof. exact (@parse_line_returns_stripped unicode14 (lit "  abc  ")). Defined.

Lemma parse_line_valid_password_witness :
  validate_password (PyStr (lit "#AAA111bcd")) = Ok (true, MSG_OK) /\
  parse_line (lit "PASSWORD: " ++ lit "#AAA111bcd" ++ [NEWLINE])
  = Ok (Some (lit "#AAA111bcd")) /\
  parse_line (lit "#AAA111bcd" ++ [NEWLINE]) = Ok None.
Proof.
  split; [reflexivity|].
  exact (@parse_line_valid_password unicode14 (lit "#AAA111bcd") eq_refl).
Defined.

Lemma load_and_validate_ordered_witness :
  load_and_validate (CannotDecode [lit "PASSWORD: AAA111###X"])
  = Raise UnicodeDecodeError /\
  exists out,
    load_and_validate
      (Lines [lit "PASSWORD: AAA111###X"; lit ""; lit "abc"]) = Ok out /\
    length out <= 3 /\
    StronglySorted lt (map line_no out) /\
    Forall (fun r => 1 <= line_no r <= 3) out.
Proof.
  split.
  - exact (@load_and_validate_ordered unicode14
             (CannotDecode [lit "PASSWORD: AAA111###X"])).
  - exact (@load_and_validate_ordered unicode14
             (Lines [lit "PASSWORD: AAA111###X"; lit ""; lit "abc"])).
Defined.

Lemma load_and_validate_complete_witness :
  exists out,
    load_and_validate (Lines [lit "# comment"; lit "PASSWORD: AAA111###X"])
    = Ok out /\
    In (mkResult 2 (lit "AAA111###X") true MSG_OK) out.
Proof.
  apply (proj2 (@load_and_validate_complete unicode14
                  [lit "# comment"; lit "PASSWORD: AAA111###X"]
                  (mkResult 2 (lit "AAA111###X") true MSG_OK))).
  exists [lit "# comment"], (lit "PASSWORD: AAA111###X"), [].
  repeat split; reflexivity.
Defined.

Lemma load_and_validate_app_witness :
  load_and_validate
    (Lines ([lit "abc"; lit ""] ++ [lit "PASSWORD: AAA111###X"]))
  = Ok [mkResult 1 (lit "abc") false MSG_SHORT_OR_CHARSET;
        mkResult 3 (lit "AAA111###X") true MSG_OK].
Proof.
  exact (@load_and_validate_app unicode14 [lit "abc"; lit ""]
           [lit "PASSWORD: AAA111###X"] _ _ eq_refl eq_refl).
Defined.

Lemma load_and_validate_blank_value_witness :
  load_and_validate (Lines [lit "  "]) = Ok [] /\
  load_and_validate (Lines [lit "PASSWORD:  "])
  = Ok [mkResult 1 [] false MSG_SHORT_OR_CHARSET].
Proof.
  exact (@load_and_validate_blank_value unicode14 (lit "PASSWORD") (lit "  ")
           plain_key_PASSWORD eq_refl).
Defined.

Lemma parse_line_skips_and_splits_witness :
  (exists tl, strip (lit "  #AAA111bcd" ++ [NEWLINE]) = ord "#" :: tl) /\
  parse_line (lit "  #AAA111bcd" ++ [NEWLINE]) = Ok None /\
  strip (lit " #AAA111bcd" ++ [NEWLINE]) = ord "#" :: lit "AAA111bcd" /\
  parse_line (lit "PASSWORD" ++ ord ":" :: lit " #AAA111bcd" ++ [NEWLINE])
  = Ok (Some (ord "#" :: lit "AAA111bcd")) /\
  exists out v reason,
    load_and_validate
      (Lines ([lit "abc"]
              ++ (lit "PASSWORD" ++ ord ":" :: lit " #AAA111bcd" ++ [NEWLINE])
              :: []))
    = Ok out /\
    validate_password (PyStr (ord "#" :: lit "AAA111bcd")) = Ok (v, reason) /\
    In (mkResult 2 (ord "#" :: lit "AAA111bcd") v reason) out.
Proof.
  assert (H : exists tl,
             strip (lit "  #AAA111bcd" ++ [NEWLINE]) = ord "#" :: tl)
    by (eexists; reflexivity).
  assert (Hv : strip (lit " #AAA111bcd" ++ [NEWLINE])
               = ord "#" :: lit "AAA111bcd") by reflexivity.
  split; [exact H|]. split.
  - apply (proj1 (@parse_line_skips_and_splits unicode14
                    (lit "  #AAA111bcd" ++ [NEWLINE]))).
    right. exact H.
  - split; [exact Hv|].
    destruct (proj2 (proj2 (proj2 (proj2
                (@parse_line_skips_and_splits unicode14
                   (lit "PASSWORD" ++ ord ":" :: lit " #AAA111bcd"
                    ++ [NEWLINE])))))
                (lit "PASSWORD") (lit " #AAA111bcd" ++ [NEWLINE])
                (lit "AAA111bcd") plain_key_PASSWORD eq_refl Hv)
      as [Hparse Hentry].
    split; [exact Hparse|]. exact (Hentry [lit "abc"] []).
Defined.

Lemma PASSWORD_REGEX_decides_policy_witness :
  exists m,
    re_fullmatch (budget (PyStr (lit "AAA111###X"))) PASSWORD_REGEX
      (PyStr (lit "AAA111###X")) = Ok (Some m).
Proof.
  apply (proj2 (proj2 (@PASSWORD_REGEX_decides_policy unicode14
                         (lit "AAA111###X")))).
  reflexivity.
Defined.

Lemma validate_password_order_blind_witness :
  validate_password (PyStr (lit "AAA111###X"))
  = validate_password (PyStr (rev (lit "AAA111###X"))).
Proof.
  apply (proj1 (@validate_password_order_blind unicode14 (lit "AAA111###X")
                  (rev (lit "AAA111###X")))).
  apply Permutation_rev.
Defined.

Lemma shown_fits_column_witness :
  40 < length (lit "AAA111###XAAA111###XAAA111###XAAA111###Xa") /\
  shown (lit "AAA111###XAAA111###XAAA111###XAAA111###Xa")
  = lit "AAA111###XAAA111###XAAA111###XAAA111" ++ lit "#...".
Proof.
  assert (H : 40 < length (lit "AAA111###XAAA111###XAAA111###XAAA111###Xa"))
    by (cbn; lia).
  split; [exact H|].
  exact (proj1 (proj2 (proj2 (shown_fits_column
                                (lit "AAA111###XAAA111###XAAA111###XAAA111###Xa"))))
           H).
Defined.

Lemma rows_align_with_header_witness :
  length (row_lead (mkResult 999 (lit "abc") false MSG_SHORT_OR_CHARSET)) = 58.
Proof.
  apply (proj1 (proj2 (proj2 (proj2
           (rows_align_with_header
              (mkResult 999 (lit "abc") false MSG_SHORT_OR_CHARSET)))))).
  cbn [line_no]. lia.
Defined.

Lemma main_opens_first_file_witness :
  exists results,
    load_and_validate (Lines [lit "PASSWORD: AAA111###X"; lit "abc"])
    = Ok results /\
    @main unicode14 utf8_stdout 80 (fun _ _ => lit "50.0") one_file
      [lit "--export=out.csv"; lit "data.txt"; lit "--summary"; lit "other.txt"]
    = Exit 0 (print_table 80 results
              ++ print_summary (fun _ _ => lit "50.0") results) /\
    @main unicode14 ascii_stdout 80 (fun _ _ => lit "50.0") one_file
      [lit "--export=out.csv"; lit "data.txt"; lit "--summary"; lit "other.txt"]
    = Uncaught UnicodeEncodeError (print (repeat (ord "-") 80)).
Proof.
  destruct (proj2 (@main_opens_first_file unicode14 utf8_stdout 80
                     (fun _ _ => lit "50.0") one_file
                     [lit "--export=out.csv"; lit "data.txt"; lit "--summary";
                      lit "other.txt"])
              (lit "data.txt") _ eq_refl eq_refl)
    as (results & Hload & Hok & _ & _).
  destruct (proj2 (@main_opens_first_file unicode14 ascii_stdout 80
                     (fun _ _ => lit "50.0") one_file
                     [lit "--export=out.csv"; lit "data.txt"; lit "--summary";
                      lit "other.txt"])
              (lit "data.txt") _ eq_refl eq_refl)
    as (_ & _ & _ & _ & Hhead).
  exists results. split; [exact Hload|]. split.
  - apply Hok. vm_compute in Hload. injection Hload as <-. reflexivity.
  - apply Hhead. reflexivity.
Defined.

Lemma main_ignores_export_witness :
  @main unicode14 utf8_stdout 80 (fun _ _ => lit "50.0") one_file
    [lit "--export=out.csv"; lit "data.txt"]
  = @main unicode14 utf8_stdout 80 (fun _ _ => lit "50.0") one_file
      [lit "data.txt"].
Proof.
  apply (proj1 (@main_ignores_export unicode14 utf8_stdout 80
                  (fun _ _ => lit "50.0") one_file
                  [lit "--export=out.csv"; lit "data.txt"])).
  discriminate.
Defined.


Lemma main_argument_order_witness :
  @main unicode14 utf8_stdout 80 (fun _ _ => lit "50.0") one_file
    [lit "data.txt"; lit "other.txt"]
  = @main unicode14 utf8_stdout 80 (fun _ _ => lit "50.0") one_file
      [lit "data.txt"].
Proof.
  exact (proj2 (@main_argument_order unicode14 utf8_stdout 80
                  (fun _ _ => lit "50.0") one_file
                  [lit "data.txt"] [lit "other.txt"])
           (lit "data.txt") eq_refl eq_refl).
Defined.

Lemma print_summary_of_file_witness :
  print_summary (fun _ _ => lit "50.0")
    [mkResult 1 (lit "AAA111###X") true MSG_OK;
     mkResult 3 (lit "abc") false MSG_SHORT_OR_CHARSET]
  = print (NEWLINE :: text "Resumen:")
    ++ print (text "--------")
    ++ print (text "Válidas: " ++ lit "1" ++ text "/" ++ lit "2" ++ text " ("
              ++ lit "50.0" ++ text "%)").
Proof.
  exact (@print_summary_of_file unicode14 (fun _ _ => lit "50.0")
           [lit "PASSWORD: AAA111###X"; lit "# comment"; lit "abc"] _ eq_refl).
Defined.
